(** * Real-Time Weather Monitoring System: the ingestion, aggregation and
      alerting core of [server.js], embedded in Rocq.

    JavaScript numbers are IEEE 754 binary64 values; they are modelled by
    Rocq's primitive floats, whose operations are the same roundings.  The
    object [alertCounts], used as a map from city names to counts, is a
    [gmap string nat]: the counts the program stores are small naturals. *)

From Stdlib Require Import ZArith List Floats Lia.
From stdpp Require Import base option list gmap strings.

Set Warnings "-inexact-float".
Local Open Scope float_scope.

(** ** Configuration *)

(** [const cities = ['Delhi', 'Mumbai', 'Chennai', 'Bangalore', 'Kolkata',
    'Hyderabad']] *)
Definition cities : list string :=
  ["Delhi"; "Mumbai"; "Chennai"; "Bangalore"; "Kolkata"; "Hyderabad"]%string.

(** [const alertThreshold = 35; const alertConsecutiveCount = 2;] *)
Definition alertThreshold : float := 35.
Definition alertConsecutiveCount : nat := 2.

(** ** The alert state machine *)

Module Alert.

(** What [sendAlertEmail(city, temp)] hands to the mail transport. *)
Record email := Email { email_city : string; email_temp : float }.

(** The spec's name for what one call decides. *)
Inductive AlertDecision := NoAlert | Alert.

(** [alertCounts[city] || 0]: a missing entry reads as [undefined], and
    [undefined] and [0] are both falsy. *)
Definition count_of (alertCounts : gmap string nat) (city : string) : nat :=
  match alertCounts !! city with
  | Some n => if decide (n = 0%nat) then 0%nat else n
  | None => 0%nat
  end.

(** [checkAndSendAlert(city, temp)]: the new [alertCounts] and the mails
    passed to [sendAlertEmail], in order. *)
Definition checkAndSendAlert (city : string) (temp : float)
    (alertCounts : gmap string nat) : gmap string nat * list email :=
  if alertThreshold <? temp then
    let alertCounts1 := <[city := (count_of alertCounts city + 1)%nat]> alertCounts in
    match alertCounts1 !! city with
    | Some n =>
        if decide (alertConsecutiveCount ≤ n)%nat then
          (<[city := 0%nat]> alertCounts1, [Email city temp])
        else (alertCounts1, [])
    | None => (alertCounts1, [])
    end
  else
    (<[city := 0%nat]> alertCounts, []).

(** [observe] of the spec: the decision is [Alert] exactly when a mail went
    out. *)
Definition decision (mails : list email) : AlertDecision :=
  match mails with [] => NoAlert | _ => Alert end.

Definition observe (city : string) (temp : float)
    (alertCounts : gmap string nat) : gmap string nat * AlertDecision :=
  let '(alertCounts', mails) := checkAndSendAlert city temp alertCounts in
  (alertCounts', decision mails).

(** A run of readings for one city, as the scheduler feeds them in. *)
Fixpoint observe_all (city : string) (temps : list float)
    (alertCounts : gmap string nat) : gmap string nat * list AlertDecision :=
  match temps with
  | [] => (alertCounts, [])
  | t :: rest =>
      let '(alertCounts1, d) := observe city t alertCounts in
      let '(alertCounts2, ds) := observe_all city rest alertCounts1 in
      (alertCounts2, d :: ds)
  end.

(** Readings of several cities interleaved, from a given counter map. *)
Fixpoint run (calls : list (string * float))
    (alertCounts : gmap string nat) : gmap string nat :=
  match calls with
  | [] => alertCounts
  | (city, t) :: rest => run rest (fst (checkAndSendAlert city t alertCounts))
  end.

End Alert.

(** ** JavaScript number helpers *)

Module JS.

(** [arr.length] as a number. *)
Definition Number_of_nat (n : nat) : float :=
  PrimFloat.of_uint63 (Uint63.of_Z (Z.of_nat n)).

(** [Math.max(...xs)]: starts from [-Infinity]; any [NaN] gives [NaN];
    [+0] is larger than [-0]. *)
Definition max2 (highest x : float) : float :=
  if is_nan highest || is_nan x then nan
  else if highest <? x then x
  else if is_zero highest && is_zero x && get_sign highest && negb (get_sign x) then x
  else highest.

Definition Math_max (xs : list float) : float := fold_left max2 xs neg_infinity.

(** [Math.min(...xs)]: starts from [+Infinity]; [-0] is smaller than [+0]. *)
Definition min2 (lowest x : float) : float :=
  if is_nan lowest || is_nan x then nan
  else if x <? lowest then x
  else if is_zero lowest && is_zero x && negb (get_sign lowest) && get_sign x then x
  else lowest.

Definition Math_min (xs : list float) : float := fold_left min2 xs infinity.

(** [xs.reduce((a, b) => a + b, 0)] *)
Definition sum (xs : list float) : float := fold_left PrimFloat.add xs 0.

End JS.

(** ** The daily aggregator *)

Module Aggregator.

(** A stored [WeatherData] document, typed by [weatherSchema]; [date] is a
    time value in milliseconds since the epoch. *)
Record WeatherData := {
  city : string;
  main : string;
  temp : float;
  feels_like : float;
  humidity : float;
  wind_speed : float;
  dt : float;
  date : Z
}.

(** What [calculateDailySummary] returns.  [dominantWeather] is [None] when
    [getMostFrequent] returns [undefined]. *)
Record DailySummary := {
  s_city : string;
  s_date : Z;
  avgTemp : float;
  maxTemp : float;
  minTemp : float;
  dominantWeather : option string;
  avgHumidity : float;
  avgWindSpeed : float
}.

(** [arr.filter(v => v === a).length] *)
Definition occurrences (arr : list string) (a : string) : nat :=
  length (filter (λ v, v = a) arr).

(** [Array.prototype.sort] is stable: elements the comparator does not
    order strictly keep their relative order.  The comparator of
    [getMostFrequent] is the difference of two keys, so sorting is stable
    insertion by ascending key: a new leftmost element goes in front of
    the first element whose key is not smaller. *)
Section StableSort.
Context {A : Type} (key : A → nat).

(** the comparator [(a, b) => key(a) - key(b)] *)
Definition compareFn (a b : A) : Z := Z.of_nat (key a) - Z.of_nat (key b).

Fixpoint insert_sorted (x : A) (l : list A) : list A :=
  match l with
  | [] => [x]
  | y :: l' =>
      if (compareFn y x <? 0)%Z then y :: insert_sorted x l'
      else x :: y :: l'
  end.

Fixpoint sort (l : list A) : list A :=
  match l with
  | [] => []
  | x :: l' => insert_sorted x (sort l')
  end.
End StableSort.

(** [arr.sort((a,b) => count(a) - count(b)).pop()]; the counts are taken
    in [arr] itself. *)
Definition getMostFrequent (arr : list string) : option string :=
  last (sort (occurrences arr) arr).

Definition msPerDay : Z := 86400000.

(** [setHours(0, 0, 0, 0)] and [setHours(23, 59, 59, 999)] in the local
    time of the host, which is [tz] milliseconds ahead of UTC. *)
Definition startOfDay (tz date : Z) : Z := (date - (date + tz) `mod` msPerDay)%Z.
Definition endOfDay (tz date : Z) : Z := (startOfDay tz date + 86399999)%Z.

(** [WeatherData.find({ city, date: { $gte: startOfDay, $lte: endOfDay } })] *)
Definition find (db : list WeatherData) (c : string) (from to : Z) : list WeatherData :=
  filter (λ d, city d = c ∧ (from ≤ date d)%Z ∧ (date d ≤ to)%Z) db.

(** The object literal returned by [calculateDailySummary], as a function
    of the query result [data]. *)
Definition summary_of (c : string) (start : Z) (data : list WeatherData) : DailySummary :=
  let temperatures := map temp data in
  let weatherConditions := map main data in
  {| s_city := c;
     s_date := start;
     avgTemp := JS.sum temperatures / JS.Number_of_nat (length temperatures);
     maxTemp := JS.Math_max temperatures;
     minTemp := JS.Math_min temperatures;
     dominantWeather := getMostFrequent weatherConditions;
     avgHumidity := JS.sum (map humidity data) / JS.Number_of_nat (length data);
     avgWindSpeed := JS.sum (map wind_speed data) / JS.Number_of_nat (length data) |}.

Definition calculateDailySummary (tz : Z) (db : list WeatherData)
    (c : string) (d : Z) : DailySummary :=
  summary_of c (startOfDay tz d) (find db c (startOfDay tz d) (endOfDay tz d)).

End Aggregator.

(** ** The cache-aside fetcher *)

Module Fetch.

(** The values the program meets where it expects a number: a number, or
    [undefined] (a property that is absent) or [null]. *)
Inductive jsnum := JUndefined | JNull | JNumber (f : float).

(** Conversion to a number, as [-], [*] and [>] apply it. *)
Definition ToNumber (v : jsnum) : float :=
  match v with
  | JUndefined => nan
  | JNull => 0
  | JNumber f => f
  end.

(** The provider's payload after [JSON.parse], by what the program reads
    from it.  A block is [None] when the property is absent or [null]. *)
Record MainBlock := {
  main_temp : jsnum;
  main_feels_like : jsnum;
  main_humidity : jsnum
}.

Record WeatherEntry := { weather_main : option string }.

Record WindBlock := { wind_speed_of : jsnum }.

Record Response := {
  r_main : option MainBlock;
  r_weather : option (list WeatherEntry);
  r_wind : option WindBlock;
  r_dt : jsnum
}.

(** What [https.get] leads to: the ["error"] event with [err.message], or
    the ["end"] event with the whole body; [parsed] is [None] when
    [JSON.parse(data)] throws or the body is the text [null]. *)
Inductive ProviderReply :=
  | NetworkError (message : string)
  | Body (parsed : option Response).

(** Section 4.2 of the specification names [toDisplayUnit] the conversion
    that the source writes in line, twice, as [- 273.15]. *)
Definition toDisplayUnit (rawTemp : float) : float := rawTemp - 273.15.

(** [processedData] *)
Record Observation := {
  city : string;
  main : option string;
  temp : jsnum;
  feels_like : jsnum;
  humidity : jsnum;
  wind_speed : jsnum;
  dt : jsnum
}.

(** The object literal of the ["end"] callback; [None] stands for the
    [TypeError] of reading a property of [undefined]. *)
Definition processedData (c : string) (response : Response) : option Observation :=
  weather ← r_weather response;
  weather0 ← head weather;
  main ← r_main response;
  wind ← r_wind response;
  Some {| city := c;
          main := weather_main weather0;
          temp := JNumber (ToNumber (main_temp main) - 273.15);
          feels_like := JNumber (ToNumber (main_feels_like main) - 273.15);
          humidity := main_humidity main;
          wind_speed := wind_speed_of wind;
          dt := r_dt response |}.

(** *** Serialisation

    A JSON text is represented by the document it denotes.  [JSON.stringify]
    writes [NaN] and the infinities as [null], writes [-0] as [0] and leaves
    out a property whose value is [undefined]. *)
Definition json_number (f : float) : jsnum :=
  if is_nan f || is_infinity f then JNull
  else if is_zero f && get_sign f then JNumber 0
  else JNumber f.

Definition json_value (v : jsnum) : jsnum :=
  match v with
  | JNumber f => json_number f
  | _ => v
  end.

(** The numbers that come back from a JSON text as they went in. *)
Definition exact_in_json (v : jsnum) : bool :=
  match v with
  | JNumber f => negb (is_nan f || is_infinity f) && negb (is_zero f && get_sign f)
  | _ => true
  end.

Record json_text := Text { denotes : Observation }.

Definition JSON_stringify (o : Observation) : json_text :=
  Text {| city := city o;
          main := main o;
          temp := json_value (temp o);
          feels_like := json_value (feels_like o);
          humidity := json_value (humidity o);
          wind_speed := json_value (wind_speed o);
          dt := json_value (dt o) |}.

Definition JSON_parse (t : json_text) : Observation := denotes t.

Definition survives_json (o : Observation) : bool :=
  exact_in_json (temp o) && exact_in_json (feels_like o)
  && exact_in_json (humidity o) && exact_in_json (wind_speed o)
  && exact_in_json (dt o).

(** *** The cache store: texts with the instant (in seconds) at which they
    expire. *)
Definition cacheKey (c : string) : string := ("weather:" ++ c)%string.

Definition getAsync (now : Z) (cache : gmap string (json_text * Z))
    (key : string) : option json_text :=
  match cache !! key with
  | Some (text, expires) => if (now <? expires)%Z then Some text else None
  | None => None
  end.

(** [setAsync(key, text, 'EX', seconds)] *)
Definition setAsync (now : Z) (cache : gmap string (json_text * Z))
    (key : string) (text : json_text) (seconds : Z) : gmap string (json_text * Z) :=
  <[key := (text, (now + seconds)%Z)]> cache.

(** How a promise ends: resolved, rejected, or never settled. *)
Inductive settled (A : Type) :=
  | Resolved (a : A)
  | Rejected (reason : string)
  | Pending.
Arguments Resolved {A} a.
Arguments Rejected {A} reason.
Arguments Pending {A}.

Inductive event :=
  | ProviderCall (c : string)
  | CacheWrite (key : string) (text : json_text) (seconds : Z).

Record FetchResult := {
  outcome : settled Observation;
  cache_after : gmap string (json_text * Z);
  trace : list event
}.

(** [fetchWeatherData(city)] at instant [now].  A cached text is never the
    empty string, so [if (cachedData)] tests that the entry is there.  An
    exception thrown in the [async] callback of ["end"] rejects that
    callback's own promise: neither [resolve] nor [reject] of the returned
    promise is called. *)
Definition fetchWeatherData (now : Z) (provider : string → ProviderReply)
    (cache : gmap string (json_text * Z)) (c : string) : FetchResult :=
  match getAsync now cache (cacheKey c) with
  | Some cachedData =>
      {| outcome := Resolved (JSON_parse cachedData);
         cache_after := cache; trace := [] |}
  | None =>
      match provider c with
      | NetworkError message =>
          {| outcome := Rejected ("Error: " ++ message)%string;
             cache_after := cache; trace := [ProviderCall c] |}
      | Body None =>
          {| outcome := Pending; cache_after := cache; trace := [ProviderCall c] |}
      | Body (Some response) =>
          match processedData c response with
          | None =>
              {| outcome := Pending; cache_after := cache; trace := [ProviderCall c] |}
          | Some data =>
              {| outcome := Resolved data;
                 cache_after := setAsync now cache (cacheKey c) (JSON_stringify data) 300;
                 trace := [ProviderCall c; CacheWrite (cacheKey c) (JSON_stringify data) 300] |}
          end
      end
  end.

Definition is_provider_call (e : event) : bool :=
  match e with ProviderCall _ => true | _ => false end.
Definition is_cache_write (e : event) : bool :=
  match e with CacheWrite _ _ _ => true | _ => false end.

Definition provider_calls (t : list event) : nat := length (List.filter is_provider_call t).
Definition cache_writes (t : list event) : nat := length (List.filter is_cache_write t).

End Fetch.

(** ** The request surface *)

Module Api.

Import Aggregator.

Inductive body :=
  | ErrorBody (error : string)
  | Document (latestData : option WeatherData).

Record response := { status : nat; json : body }.

(** [WeatherData.findOne({ city }).sort({ dt: -1 })]: a document of the
    city with the greatest [dt], or [null]. *)
Definition findLatest (db : list WeatherData) (c : string) : option WeatherData :=
  fold_left
    (λ best d, match best with
               | None => Some d
               | Some b => if dt b <? dt d then Some d else Some b
               end)
    (filter (λ d, city d = c) db) None.

(** The handler of [GET /api/weather/:city]; [db] is [None] when the
    query to the store fails. *)
Definition getLatest (db : option (list WeatherData)) (c : string) : response :=
  if decide (c ∈ cities) then
    match db with
    | Some docs => {| status := 200; json := Document (findLatest docs c) |}
    | None => {| status := 500; json := ErrorBody "Internal server error" |}
    end
  else {| status := 400; json := ErrorBody "Invalid city" |}.

End Api.

(** ** The polling scheduler *)

Module Scheduler.

Import Fetch.

(** [new WeatherData({ ...data, date: new Date(data.dt * 1000) })]; the
    date is kept as the number handed to [new Date]. *)
Record NewDoc := { doc_data : Observation; doc_date : float }.

(** What lies outside the program during one sweep. *)
Record World := {
  now : Z;
  provider : string → ProviderReply;
  (** whether [weatherData.save()] resolves *)
  save_ok : NewDoc → bool
}.

Record State := {
  cache : gmap string (json_text * Z);
  saved : list NewDoc;
  alertCounts : gmap string nat;
  mails : list Alert.email;
  events : list event;
  (** [console.error] of the [catch] block: the city and the error *)
  errors : list (string * string)
}.

Definition saveWeatherData (w : World) (data : Observation) : settled NewDoc :=
  let weatherData := {| doc_data := data; doc_date := ToNumber (dt data) * 1000 |} in
  if save_ok w weatherData then Resolved weatherData
  else Rejected "save failed".

Inductive progress := Continue (st : State) | Suspended (st : State).

(** The body of the [for] loop for one city: [try { ... } catch]. *)
Definition process (w : World) (st : State) (c : string) : progress :=
  let r := fetchWeatherData (now w) (provider w) (cache st) c in
  let st1 := {| cache := cache_after r; saved := saved st;
                alertCounts := alertCounts st; mails := mails st;
                events := events st ++ trace r; errors := errors st |} in
  match outcome r with
  | Pending => Suspended st1
  | Rejected error =>
      Continue {| cache := cache st1; saved := saved st1;
                  alertCounts := alertCounts st1; mails := mails st1;
                  events := events st1; errors := errors st1 ++ [(c, error)] |}
  | Resolved data =>
      match saveWeatherData w data with
      | Pending => Suspended st1
      | Rejected error =>
          Continue {| cache := cache st1; saved := saved st1;
                      alertCounts := alertCounts st1; mails := mails st1;
                      events := events st1; errors := errors st1 ++ [(c, error)] |}
      | Resolved weatherData =>
          let '(counts, sent) :=
            Alert.checkAndSendAlert c (ToNumber (temp data)) (alertCounts st1) in
          Continue {| cache := cache st1; saved := saved st1 ++ [weatherData];
                      alertCounts := counts; mails := mails st1 ++ sent;
                      events := events st1; errors := errors st1 |}
      end
  end.

(** One firing of the [setInterval] callback: [for (const city of cities)]. *)
Fixpoint sweep_over (w : World) (cs : list string) (st : State) : progress :=
  match cs with
  | [] => Continue st
  | c :: rest =>
      match process w st c with
      | Continue st' => sweep_over w rest st'
      | Suspended st' => Suspended st'
      end
  end.

Definition sweep (w : World) (st : State) : progress := sweep_over w cities st.

Definition suspended (p : progress) : bool :=
  match p with Suspended _ => true | Continue _ => false end.

Definition state_of (p : progress) : State :=
  match p with Continue st | Suspended st => st end.

(** The cities dealt with so far: a document saved or an error logged. *)
Definition handled (st : State) : nat := (length (saved st) + length (errors st))%nat.

(** The replies after which the returned promise is settled. *)
Definition settles (c : string) (reply : ProviderReply) : bool :=
  match reply with
  | NetworkError _ => true
  | Body (Some response) =>
      match processedData c response with Some _ => true | None => false end
  | Body None => false
  end.

Definition initial : State :=
  {| cache := ∅; saved := []; alertCounts := ∅; mails := []; events := []; errors := [] |}.

End Scheduler.

(** ** Concrete inputs *)

Module Inputs.

Import Fetch.

(** The host's local time: India Standard Time, UTC+05:30. *)
Definition ist : Z := 19800000.

(** A reading of 312.55 K in Delhi on 1 June 2024, 12:00 local time, as
    the fetcher converts it and the writer stores it. *)
Definition heat_reading : Aggregator.WeatherData :=
  {| Aggregator.city := "Delhi"; Aggregator.main := "Clear";
     Aggregator.temp := 312.55 - 273.15; Aggregator.feels_like := 314.2 - 273.15;
     Aggregator.humidity := 21; Aggregator.wind_speed := 3.6;
     Aggregator.dt := 1717223400; Aggregator.date := 1717223400000 |}.

(** The same reading stored by thirteen sweeps in a row. *)
Definition heat_window : list Aggregator.WeatherData := repeat heat_reading 13.

(** A complete payload with temperature [k] kelvin. *)
Definition clear_sky (k : float) : Response :=
  {| r_main := Some {| main_temp := JNumber k; main_feels_like := JNumber k;
                       main_humidity := JNumber 40 |};
     r_weather := Some [{| weather_main := Some "Clear"%string |}];
     r_wind := Some {| wind_speed_of := JNumber 3.6 |};
     r_dt := JNumber 1717223400 |}.

(** The body [{"cod":401,"message":"Invalid API key"}]: none of the
    properties the program reads is there. *)
Definition invalid_key_body : Response :=
  {| r_main := None; r_weather := None; r_wind := None; r_dt := JUndefined |}.

(** A payload whose [main] block has no [temp]. *)
Definition no_temperature : Response :=
  {| r_main := Some {| main_temp := JUndefined; main_feels_like := JNumber 300;
                       main_humidity := JNumber 40 |};
     r_weather := Some [{| weather_main := Some "Clear"%string |}];
     r_wind := Some {| wind_speed_of := JNumber 3.6 |};
     r_dt := JNumber 1717223400 |}.

(** A sweep in which the provider refuses the key for Delhi and answers
    for the other cities; the store accepts every document. *)
Definition delhi_refused : Scheduler.World :=
  {| Scheduler.now := 1717223400;
     Scheduler.provider := λ c, if decide (c = "Delhi"%string)
                                then Body (Some invalid_key_body)
                                else Body (Some (clear_sky 300));
     Scheduler.save_ok := λ _, true |}.

(** A sweep in which the connection fails for Delhi only. *)
Definition delhi_unreachable : Scheduler.World :=
  {| Scheduler.now := 1717223400;
     Scheduler.provider := λ c, if decide (c = "Delhi"%string)
                                then NetworkError "connect ETIMEDOUT"
                                else Body (Some (clear_sky 300));
     Scheduler.save_ok := λ _, true |}.

End Inputs.

(** ** The timer *)

Module Polling.

Import Fetch Scheduler.

(** [setInterval] fires the callback once per period, each time in the
    world of that instant; a sweep that is suspended does not keep the next
    one from starting, on the state the program is in by then.  Sweeps are
    taken one after the other: none is still running when the next one
    starts. *)
Definition ticks (ws : list World) (st : State) : State :=
  fold_left (λ st w, state_of (sweep w st)) ws st.

(** A reading strictly above the threshold. *)
Definition hot (temp : float) : Prop := (alertThreshold <? temp) = true.

End Polling.

(** ** The forecast route *)

Module Forecast.

Inductive ProviderReply :=
  | NetworkError (message : string)
  | Body (data : string).

Inductive event :=
  | ProviderCall (c : string)
  | CacheWrite (key : string) (text : string) (seconds : Z).

Definition cacheKey (c : string) : string := ("forecast:" ++ c)%string.

Definition getAsync (now : Z) (cache : gmap string (string * Z))
    (key : string) : option string :=
  match cache !! key with
  | Some (text, expires) => if (now <? expires)%Z then Some text else None
  | None => None
  end.

Definition setAsync (now : Z) (cache : gmap string (string * Z))
    (key text : string) (seconds : Z) : gmap string (string * Z) :=
  <[key := (text, (now + seconds)%Z)]> cache.

(** [if (cachedForecast)]: [null] and the empty string are falsy. *)
Definition truthy (cached : option string) : option string :=
  match cached with
  | Some text => if decide (text = ""%string) then None else Some text
  | None => None
  end.

Section Handler.
(** The payload is handed on as [JSON.parse] gives it; [JSON_parse] is
    [None] where [JSON.parse] throws. *)
Context {J : Type} (JSON_parse : string → option J) (JSON_stringify : J → string).

Inductive body :=
  | ErrorBody (error : string)
  | Payload (forecast : J).

(** What the client gets: a response, or none when an exception escapes
    the event callback before [res] is used. *)
Inductive reply :=
  | Answer (status : nat) (json : body)
  | NoAnswer.

Record Result := {
  response : reply;
  cache_after : gmap string (string * Z);
  trace : list event
}.

(** The handler of [GET /api/forecast/:city] at instant [now]. *)
Definition getForecast (now : Z) (provider : string → ProviderReply)
    (cache : gmap string (string * Z)) (c : string) : Result :=
  if decide (c ∈ cities) then
    match truthy (getAsync now cache (cacheKey c)) with
    | Some cachedForecast =>
        match JSON_parse cachedForecast with
        | Some forecast =>
            {| response := Answer 200 (Payload forecast);
               cache_after := cache; trace := [] |}
        | None =>
            {| response := Answer 500 (ErrorBody "Failed to fetch forecast data");
               cache_after := cache; trace := [] |}
        end
    | None =>
        match provider c with
        | NetworkError message =>
            {| response := Answer 500 (ErrorBody "Failed to fetch forecast data");
               cache_after := cache; trace := [ProviderCall c] |}
        | Body data =>
            match JSON_parse data with
            | None =>
                {| response := NoAnswer; cache_after := cache;
                   trace := [ProviderCall c] |}
            | Some forecast =>
                {| response := Answer 200 (Payload forecast);
                   cache_after :=
                     setAsync now cache (cacheKey c) (JSON_stringify forecast) 1800;
                   trace := [ProviderCall c;
                             CacheWrite (cacheKey c) (JSON_stringify forecast) 1800] |}
            end
        end
    end
  else
    {| response := Answer 400 (ErrorBody "Invalid city");
       cache_after := cache; trace := [] |}.
End Handler.

End Forecast.

(** ** The order of floats, by rank *)

Module FloatOrder.

Import SpecFloat.

(** A triple whose lexicographic order is the order of the floats that
    are not [NaN]: the class, then the exponent, then the mantissa. *)
Definition rank (f : spec_float) : option (Z * Z * Z) :=
  match f with
  | S754_nan => None
  | S754_infinity true => Some (-2, 0, 0)%Z
  | S754_infinity false => Some (2, 0, 0)%Z
  | S754_zero _ => Some (0, 0, 0)%Z
  | S754_finite true m e => Some (-1, - e, Z.neg m)%Z
  | S754_finite false m e => Some (1, e, Z.pos m)%Z
  end.

Definition lexcmp (a b : Z * Z * Z) : comparison :=
  match (a.1.1 ?= b.1.1)%Z with
  | Eq => match (a.1.2 ?= b.1.2)%Z with
          | Eq => (a.2 ?= b.2)%Z
          | o => o
          end
  | o => o
  end.

Definition lexlt (a b : Z * Z * Z) : Prop :=
  (a.1.1 < b.1.1 ∨ (a.1.1 = b.1.1 ∧ (a.1.2 < b.1.2 ∨ (a.1.2 = b.1.2 ∧ a.2 < b.2))))%Z.

End FloatOrder.

(** ** More concrete inputs *)

Module Cases.

Import Fetch.

(** Two sweeps, 299 seconds apart, on a day of 312.55 K everywhere. *)
Definition heat (at_ : Z) : Scheduler.World :=
  {| Scheduler.now := at_;
     Scheduler.provider := λ _, Body (Some (Inputs.clear_sky 312.55));
     Scheduler.save_ok := λ _, true |}.

(** A store that refuses every document. *)
Definition store_down : Scheduler.World :=
  {| Scheduler.now := 1717223400;
     Scheduler.provider := λ _, Body (Some (Inputs.clear_sky 312.55));
     Scheduler.save_ok := λ _, false |}.

(** A toy runtime for the forecast route: the payload is the text. *)
Definition parse_text (data : string) : option string :=
  if decide (data = "<html>"%string) then None else Some data.

Definition forecast_provider (c : string) : Forecast.ProviderReply :=
  Forecast.Body "{}".

End Cases.

(** * Properties *)

(** ** Order of floats *)

Lemma SFcompare_antisym (a b : SpecFloat.spec_float) :
  SpecFloat.SFcompare b a = option_map CompOpp (SpecFloat.SFcompare a b).
Proof.
  destruct a as [sa| sa | |sa ma ea], b as [sb|sb| |sb mb eb]; simpl;
    try destruct sa; try destruct sb; simpl; try reflexivity.
  all: rewrite (Z.compare_antisym eb ea).
  all: destruct (eb ?= ea)%Z; simpl; try reflexivity.
  all: pose proof (Pos.compare_cont_antisym ma mb Eq) as H; simpl in H; rewrite <- H.
  all: now destruct (Pos.compare_cont Eq ma mb).
Qed.

(** A number at or below [y] is not strictly above [y]. *)
Lemma leb_not_gt (x y : float) : (x <=? y) = true → (y <? x) = false.
Proof.
  rewrite leb_spec, ltb_spec. unfold SpecFloat.SFleb, SpecFloat.SFltb.
  rewrite (SFcompare_antisym (Prim2SF x) (Prim2SF y)).
  destruct (SpecFloat.SFcompare (Prim2SF x) (Prim2SF y)) as [[]|]; simpl; congruence.
Qed.

(** ** The alert state machine *)

Section AlertFacts.
Import Alert.
Implicit Types (city : string) (temp : float) (counts : gmap string nat).

Lemma count_of_lookup counts city :
  count_of counts city = default 0%nat (counts !! city).
Proof.
  unfold count_of. destruct (counts !! city) as [n|]; simpl; [|done].
  destruct (decide (n = 0%nat)); congruence.
Qed.

Lemma count_of_insert counts city n :
  count_of (<[city := n]> counts) city = n.
Proof. by rewrite count_of_lookup, lookup_insert_eq. Qed.

Lemma count_of_insert_ne counts city other n :
  city ≠ other → count_of (<[city := n]> counts) other = count_of counts other.
Proof. intros. by rewrite !count_of_lookup, lookup_insert_ne. Qed.

(** A reading above the threshold. *)
Lemma observe_above city temp counts :
  (alertThreshold <? temp) = true →
  observe city temp counts =
    if decide (alertConsecutiveCount ≤ count_of counts city + 1)%nat
    then (<[city := 0%nat]> counts, Alert)
    else (<[city := (count_of counts city + 1)%nat]> counts, NoAlert).
Proof.
  intros Hgt. unfold observe, checkAndSendAlert. rewrite Hgt.
  rewrite lookup_insert_eq.
  destruct (decide _); simpl; [|done].
  by rewrite insert_insert_eq.
Qed.

(** A reading that is not above the threshold. *)
Lemma observe_not_above city temp counts :
  (alertThreshold <? temp) = false →
  observe city temp counts = (<[city := 0%nat]> counts, NoAlert).
Proof. intros Hle. unfold observe, checkAndSendAlert. by rewrite Hle. Qed.

Lemma observe_all_cons city temp temps counts :
  observe_all city (temp :: temps) counts =
    (fst (observe_all city temps (fst (observe city temp counts))),
     snd (observe city temp counts)
       :: snd (observe_all city temps (fst (observe city temp counts)))).
Proof.
  simpl. destruct (observe city temp counts) as [c1 d]. simpl.
  by destruct (observe_all city temps c1).
Qed.

(** No call leaves a count above one. *)
Lemma checkAndSendAlert_bounded city temp counts :
  map_Forall (λ _ n, n ≤ 1)%nat counts →
  map_Forall (λ _ n, n ≤ 1)%nat (fst (checkAndSendAlert city temp counts)).
Proof.
  intros Hb. unfold checkAndSendAlert.
  assert (count_of counts city ≤ 1)%nat as Hc.
  { rewrite count_of_lookup. destruct (counts !! city) as [n|] eqn:E; simpl; [|lia].
    exact (Hb _ _ E). }
  destruct (alertThreshold <? temp); simpl.
  - rewrite lookup_insert_eq. destruct (decide _) as [Hge|Hlt]; simpl.
    + rewrite insert_insert_eq. apply map_Forall_insert_2; [lia|done].
    + apply map_Forall_insert_2; [|done]. unfold alertConsecutiveCount in Hlt. lia.
  - apply map_Forall_insert_2; [lia|done].
Qed.

Lemma run_bounded calls counts :
  map_Forall (λ _ n, n ≤ 1)%nat counts →
  map_Forall (λ _ n, n ≤ 1)%nat (run calls counts).
Proof.
  revert counts. induction calls as [|[city temp] calls IH]; intros counts Hb; simpl.
  - done.
  - apply IH. by apply checkAndSendAlert_bounded.
Qed.
End AlertFacts.

(** C1. For every city, a reading strictly above the threshold 35 adds one
    to the city's count and, when the count reaches 2, gives [Alert] and
    puts the count back to 0, and gives [NoAlert] otherwise; a reading at
    or below the threshold puts the count to 0 and gives [NoAlert].  From a
    count of 0 the readings 36, 37 give [NoAlert; Alert] and leave the
    count at 0, a following 36 alone gives [NoAlert], and 36, 10, 36 give
    [NoAlert; NoAlert; NoAlert]. *)
Theorem alert_state_machine :
  (∀ (city : string) (temp : float) (counts : gmap string nat),
     (alertThreshold <? temp) = true →
     Alert.observe city temp counts =
       if decide (2 ≤ Alert.count_of counts city + 1)%nat
       then (<[city := 0%nat]> counts, Alert.Alert)
       else (<[city := (Alert.count_of counts city + 1)%nat]> counts, Alert.NoAlert))
  ∧ (∀ (city : string) (temp : float) (counts : gmap string nat),
     (temp <=? alertThreshold) = true →
     Alert.observe city temp counts = (<[city := 0%nat]> counts, Alert.NoAlert))
  ∧ (∀ (city : string) (counts : gmap string nat),
     Alert.count_of counts city = 0%nat →
     Alert.observe_all city [36; 37] counts
       = (<[city := 0%nat]> counts, [Alert.NoAlert; Alert.Alert])
     ∧ Alert.count_of (fst (Alert.observe_all city [36; 37] counts)) city = 0%nat
     ∧ Alert.observe_all city [36] (fst (Alert.observe_all city [36; 37] counts))
       = (<[city := 1%nat]> counts, [Alert.NoAlert])
     ∧ Alert.observe_all city [36; 10; 36] counts
       = (<[city := 1%nat]> counts, [Alert.NoAlert; Alert.NoAlert; Alert.NoAlert])).
Proof.
  split; [|split].
  - intros city temp counts Hgt. by apply observe_above.
  - intros city temp counts Hle. apply observe_not_above. by apply leb_not_gt.
  - intros city counts H0.
    assert (Alert.observe city 36 counts = (<[city := 1%nat]> counts, Alert.NoAlert)) as S1.
    { rewrite observe_above by reflexivity. rewrite H0. done. }
    assert (Alert.observe city 37 (<[city := 1%nat]> counts)
            = (<[city := 0%nat]> counts, Alert.Alert)) as S2.
    { rewrite observe_above by reflexivity. rewrite count_of_insert. simpl.
      by rewrite insert_insert_eq. }
    assert (Alert.observe city 36 (<[city := 0%nat]> counts)
            = (<[city := 1%nat]> counts, Alert.NoAlert)) as S3.
    { rewrite observe_above by reflexivity. rewrite count_of_insert. simpl.
      by rewrite insert_insert_eq. }
    assert (Alert.observe city 10 (<[city := 1%nat]> counts)
            = (<[city := 0%nat]> counts, Alert.NoAlert)) as S4.
    { rewrite observe_not_above by reflexivity. by rewrite insert_insert_eq. }
    assert (Alert.observe_all city [36; 37] counts
            = (<[city := 0%nat]> counts, [Alert.NoAlert; Alert.Alert])) as R1.
    { rewrite !observe_all_cons, S1. cbn [fst snd]. by rewrite S2. }
    repeat split.
    + exact R1.
    + rewrite R1. cbn [fst]. apply count_of_insert.
    + rewrite R1. cbn [fst]. rewrite observe_all_cons, S3. done.
    + rewrite !observe_all_cons, S1. cbn [fst snd]. rewrite S4. cbn [fst snd].
      by rewrite S3.
Qed.

Lemma alert_state_machine_witness :
  Alert.observe "Delhi" 36 ∅ = (<["Delhi" := 1%nat]> ∅, Alert.NoAlert)
  ∧ Alert.observe "Delhi" 10 ∅ = (<["Delhi" := 0%nat]> ∅, Alert.NoAlert)
  ∧ Alert.observe_all "Delhi" [36; 37] ∅
    = (<["Delhi" := 0%nat]> ∅, [Alert.NoAlert; Alert.Alert]).
Proof.
  destruct alert_state_machine as (Habove & Hbelow & Hruns).
  split; [|split].
  - exact (Habove "Delhi" 36 ∅ eq_refl).
  - exact (Hbelow "Delhi" 10 ∅ eq_refl).
  - exact (proj1 (Hruns "Delhi" ∅ eq_refl)).
Defined.

(** C10. Starting from the empty counter map, after any sequence of calls
    to [checkAndSendAlert] every stored count is 0 or 1: it never stays at
    or above the required number of consecutive readings. *)
Theorem alert_count_range (calls : list (string * float)) :
  map_Forall (λ _ n, n = 0 ∨ n = 1)%nat (Alert.run calls ∅)
  ∧ ∀ city : string,
      (Alert.count_of (Alert.run calls ∅) city < alertConsecutiveCount)%nat.
Proof.
  pose proof (run_bounded calls ∅ (map_Forall_empty _)) as Hb.
  split.
  - intros city n Hn. specialize (Hb city n Hn). simpl in Hb. lia.
  - intros city. rewrite count_of_lookup. unfold alertConsecutiveCount.
    destruct (Alert.run calls ∅ !! city) as [n|] eqn:E; simpl; [|lia].
    specialize (Hb city n E). simpl in Hb. lia.
Qed.

(** ** The most frequent condition *)

Section StableSortFacts.
Context {A : Type} (key : A → nat).
Import Aggregator.

Lemma insert_sorted_perm (x : A) (l : list A) : insert_sorted key x l ≡ₚ x :: l.
Proof.
  induction l as [|y l IH]; simpl; [done|].
  destruct (compareFn key y x <? 0)%Z; [|done].
  rewrite IH. apply Permutation_swap.
Qed.

Lemma sort_perm (l : list A) : sort key l ≡ₚ l.
Proof.
  induction l as [|x l IH]; simpl; [done|].
  rewrite insert_sorted_perm. by rewrite IH.
Qed.

(** The new element ends up last exactly when every other key is
    strictly smaller. *)
Lemma last_insert_sorted (x : A) (l : list A) :
  last (insert_sorted key x l) =
    if forallb (λ y, key y <? key x)%nat l then Some x else last l.
Proof.
  induction l as [|y l IH]; simpl; [done|].
  unfold compareFn at 1.
  destruct (Nat.ltb_spec (key y) (key x)) as [Hlt|Hge].
  - replace (Z.of_nat (key y) - Z.of_nat (key x) <? 0)%Z with true
      by (symmetry; apply Z.ltb_lt; lia).
    simpl. rewrite last_cons, IH.
    destruct (forallb _ l) eqn:E; [done|].
    rewrite last_cons. destruct (last l) eqn:El; [done|].
    destruct l; [simpl in E; discriminate|]. simpl in El.
    by destruct (last l).
  - replace (Z.of_nat (key y) - Z.of_nat (key x) <? 0)%Z with false
      by (symmetry; apply Z.ltb_ge; lia).
    simpl. rewrite !last_cons. by destruct (last (y :: l)).
Qed.

Lemma forallb_perm (p : A → bool) (l l' : list A) :
  l ≡ₚ l' → forallb p l = forallb p l'.
Proof.
  induction 1; simpl; try congruence.
  by destruct (p x), (p y).
Qed.

(** The last element of the sorted array is the rightmost element of the
    original array whose key is greatest. *)
Lemma last_sort_rightmost_max (l : list A) :
  l ≠ [] →
  ∃ w pre post, last (sort key l) = Some w ∧ l = pre ++ w :: post
    ∧ (∀ y, y ∈ pre → key y ≤ key w)%nat
    ∧ (∀ y, y ∈ post → key y < key w)%nat.
Proof.
  induction l as [|x l IH]; [done|]. intros _. simpl.
  rewrite last_insert_sorted, (forallb_perm _ _ _ (sort_perm l)).
  destruct (forallb _ l) eqn:E.
  - exists x, [], l. repeat split; [|].
    + intros y Hy. by apply elem_of_nil in Hy.
    + intros y Hy. apply list_elem_of_In in Hy.
      rewrite forallb_forall in E. specialize (E y Hy). by apply Nat.ltb_lt in E.
  - destruct l as [|x' l']; [simpl in E; discriminate|].
    destruct IH as (w & pre & post & Hw & Hl & Hpre & Hpost); [done|].
    exists w, (x :: pre), post. rewrite Hw, Hl. repeat split; [|done].
    intros y Hy. apply elem_of_cons in Hy as [->|Hy]; [|by apply Hpre].
    (* some element of the tail has a key at least that of [x] *)
    assert (∃ z, z ∈ x' :: l' ∧ key x ≤ key z)%nat as (z & Hz & Hxz).
    { clear -E. induction (x' :: l') as [|a t IHt]; simpl in E; [discriminate|].
      destruct (Nat.ltb_spec (key a) (key x)) as [Hlt|Hge]; simpl in E.
      - destruct (IHt E) as (z & Hz & Hxz). exists z. split; [by right|done].
      - exists a. split; [by left|done]. }
    rewrite Hl in Hz. apply elem_of_app in Hz as [Hz|Hz].
    + specialize (Hpre z Hz). lia.
    + apply elem_of_cons in Hz as [->|Hz]; [done|].
      specialize (Hpost z Hz). lia.
Qed.
End StableSortFacts.

(** C6. For a non-empty window the dominant condition of the summary is a
    most frequent condition and, among the conditions that are as
    frequent, the one met last: it stands at some position of the window's
    conditions, no condition occurs more often, and every condition that
    comes after that position occurs strictly less often. *)
Theorem dominant_condition_last_most_frequent
    (c : string) (start : Z) (data : list Aggregator.WeatherData) :
  data ≠ [] →
  let conditions := map Aggregator.main data in
  ∃ (x : string) (pre post : list string),
    Aggregator.dominantWeather (Aggregator.summary_of c start data) = Some x
    ∧ conditions = pre ++ x :: post
    ∧ (∀ y, y ∈ conditions →
         Aggregator.occurrences conditions y ≤ Aggregator.occurrences conditions x)%nat
    ∧ (∀ y, y ∈ post →
         Aggregator.occurrences conditions y < Aggregator.occurrences conditions x)%nat.
Proof.
  intros Hne conditions.
  assert (conditions ≠ []) as Hc by (subst conditions; by destruct data).
  destruct (last_sort_rightmost_max (Aggregator.occurrences conditions) conditions Hc)
    as (w & pre & post & Hw & Hl & Hpre & Hpost).
  exists w, pre, post. repeat split; try done.
  intros y Hy. rewrite Hl in Hy.
  apply elem_of_app in Hy as [Hy|Hy]; [by apply Hpre|].
  apply elem_of_cons in Hy as [->|Hy]; [done|].
  specialize (Hpost y Hy). lia.
Qed.

Lemma dominant_condition_last_most_frequent_witness :
  [Inputs.heat_reading] ≠ []
  ∧ let conditions := map Aggregator.main [Inputs.heat_reading] in
    ∃ (x : string) (pre post : list string),
      Aggregator.dominantWeather
        (Aggregator.summary_of "Delhi" 0 [Inputs.heat_reading]) = Some x
      ∧ conditions = pre ++ x :: post
      ∧ (∀ y, y ∈ conditions →
           Aggregator.occurrences conditions y ≤ Aggregator.occurrences conditions x)%nat
      ∧ (∀ y, y ∈ post →
           Aggregator.occurrences conditions y < Aggregator.occurrences conditions x)%nat.
Proof.
  split; [discriminate|].
  apply (dominant_condition_last_most_frequent "Delhi" 0 [Inputs.heat_reading]).
  discriminate.
Defined.

(** Two conditions that are as frequent: the later one wins, whichever it
    is. *)
Example tie_goes_to_last :
  Aggregator.getMostFrequent ["Rain"; "Clear"]%string = Some "Clear"%string
  ∧ Aggregator.getMostFrequent ["Clear"; "Rain"]%string = Some "Rain"%string
  ∧ Aggregator.getMostFrequent ["Rain"; "Clear"; "Clear"; "Rain"; "Mist"]%string
    = Some "Rain"%string.
Proof. repeat split; vm_compute; reflexivity. Qed.

(** ** The daily summary *)

(** The three averages are the sum from left to right, starting at 0,
    divided by the number of documents; the extremes are [Math.max] and
    [Math.min] of the temperatures. *)
Lemma summary_means (c : string) (start : Z) (data : list Aggregator.WeatherData) :
  let s := Aggregator.summary_of c start data in
  let n := JS.Number_of_nat (length data) in
  Aggregator.avgTemp s = JS.sum (map Aggregator.temp data) / n
  ∧ Aggregator.avgHumidity s = JS.sum (map Aggregator.humidity data) / n
  ∧ Aggregator.avgWindSpeed s = JS.sum (map Aggregator.wind_speed data) / n
  ∧ Aggregator.maxTemp s = JS.Math_max (map Aggregator.temp data)
  ∧ Aggregator.minTemp s = JS.Math_min (map Aggregator.temp data).
Proof. simpl. by rewrite length_map. Qed.

(** C2. When the query finds no document in the window,
    [calculateDailySummary] does not fail: it returns a summary whose
    averages are [NaN], whose maximum is [-Infinity], whose minimum is
    [+Infinity] and whose dominant condition is [undefined]. *)
Theorem empty_window_summary (tz : Z) (db : list Aggregator.WeatherData)
    (c : string) (d : Z) :
  Aggregator.find db c (Aggregator.startOfDay tz d) (Aggregator.endOfDay tz d) = [] →
  Aggregator.calculateDailySummary tz db c d =
    {| Aggregator.s_city := c;
       Aggregator.s_date := Aggregator.startOfDay tz d;
       Aggregator.avgTemp := nan;
       Aggregator.maxTemp := neg_infinity;
       Aggregator.minTemp := infinity;
       Aggregator.dominantWeather := None;
       Aggregator.avgHumidity := nan;
       Aggregator.avgWindSpeed := nan |}.
Proof.
  intros Hempty. unfold Aggregator.calculateDailySummary. rewrite Hempty.
  reflexivity.
Qed.

Lemma empty_window_summary_witness :
  Aggregator.find Inputs.heat_window "Mumbai"
    (Aggregator.startOfDay Inputs.ist 1717223400000)
    (Aggregator.endOfDay Inputs.ist 1717223400000) = []
  ∧ is_nan (Aggregator.avgTemp
      (Aggregator.calculateDailySummary Inputs.ist Inputs.heat_window
         "Mumbai" 1717223400000)) = true.
Proof.
  split; [vm_compute; reflexivity|].
  rewrite (empty_window_summary Inputs.ist Inputs.heat_window "Mumbai" 1717223400000);
    vm_compute; reflexivity.
Defined.

(** C7. Thirteen stored readings of 312.55 K for one day: all thirteen are
    in the window, the maximum and the minimum are the reading itself, and
    the average, a rounded sum divided by thirteen, is strictly above the
    maximum. *)
Theorem mean_above_maximum :
  let s := Aggregator.calculateDailySummary
             Inputs.ist Inputs.heat_window "Delhi" 1717223400000 in
  length (Aggregator.find Inputs.heat_window "Delhi"
            (Aggregator.startOfDay Inputs.ist 1717223400000)
            (Aggregator.endOfDay Inputs.ist 1717223400000)) = 13%nat
  ∧ Aggregator.maxTemp s = 312.55 - 273.15
  ∧ Aggregator.minTemp s = 312.55 - 273.15
  ∧ (Aggregator.maxTemp s <? Aggregator.avgTemp s) = true
  ∧ (Aggregator.avgTemp s <=? Aggregator.maxTemp s) = false.
Proof. repeat split; vm_compute; reflexivity. Qed.

(** ** The fetcher *)

Section FetchFacts.
Import Fetch.
Implicit Types (now later : Z) (provider : string → ProviderReply)
  (cache : gmap string (json_text * Z)) (c : string).

Lemma fetch_hit now provider cache c cachedData :
  getAsync now cache (cacheKey c) = Some cachedData →
  fetchWeatherData now provider cache c =
    {| outcome := Resolved (JSON_parse cachedData); cache_after := cache; trace := [] |}.
Proof. intros H. unfold fetchWeatherData. by rewrite H. Qed.

(** A failure of the connection: one call, no second attempt, the cause in
    the reason. *)
Lemma fetch_network_error now provider cache c message :
  getAsync now cache (cacheKey c) = None →
  provider c = NetworkError message →
  fetchWeatherData now provider cache c =
    {| outcome := Rejected ("Error: " ++ message)%string;
       cache_after := cache; trace := [ProviderCall c] |}.
Proof. intros H Hp. unfold fetchWeatherData. by rewrite H, Hp. Qed.

(** A body from which the observation cannot be built. *)
Lemma fetch_malformed now provider cache c parsed :
  getAsync now cache (cacheKey c) = None →
  provider c = Body parsed →
  parsed ≫= processedData c = None →
  fetchWeatherData now provider cache c =
    {| outcome := Pending; cache_after := cache; trace := [ProviderCall c] |}.
Proof.
  intros H Hp Hb. unfold fetchWeatherData. rewrite H, Hp.
  destruct parsed as [response|]; [|done]. simpl in Hb. by rewrite Hb.
Qed.

Lemma fetch_miss_resolved now provider cache c o :
  getAsync now cache (cacheKey c) = None →
  outcome (fetchWeatherData now provider cache c) = Resolved o →
  ∃ response, provider c = Body (Some response)
    ∧ processedData c response = Some o
    ∧ fetchWeatherData now provider cache c =
        {| outcome := Resolved o;
           cache_after := setAsync now cache (cacheKey c) (JSON_stringify o) 300;
           trace := [ProviderCall c; CacheWrite (cacheKey c) (JSON_stringify o) 300] |}.
Proof.
  intros H. unfold fetchWeatherData. rewrite H.
  destruct (provider c) as [message|[response|]]; simpl; try discriminate.
  destruct (processedData c response) as [data|] eqn:E; simpl; try discriminate.
  intros [= ->]. by exists response.
Qed.

Lemma fetch_rejected now provider cache c reason :
  outcome (fetchWeatherData now provider cache c) = Rejected reason →
  ∃ message, provider c = NetworkError message ∧ reason = ("Error: " ++ message)%string.
Proof.
  unfold fetchWeatherData.
  destruct (getAsync now cache (cacheKey c)); simpl; try discriminate.
  destruct (provider c) as [message|[response|]]; simpl; try discriminate.
  - intros [= <-]. by exists message.
  - destruct (processedData c response); simpl; discriminate.
Qed.

Lemma getAsync_setAsync now later cache key text seconds :
  (later < now + seconds)%Z →
  getAsync later (setAsync now cache key text seconds) key = Some text.
Proof.
  intros Hlt. unfold getAsync, setAsync. rewrite lookup_insert_eq.
  by apply Z.ltb_lt in Hlt as ->.
Qed.

Lemma json_value_exact (v : jsnum) : exact_in_json v = true → json_value v = v.
Proof.
  destruct v as [| |f]; simpl; try done. unfold json_number.
  intros [H1 H2]%andb_true_iff.
  apply negb_true_iff in H1 as ->. by apply negb_true_iff in H2 as ->.
Qed.

Lemma JSON_round_trip (o : Observation) :
  survives_json o = true → JSON_parse (JSON_stringify o) = o.
Proof.
  unfold survives_json. rewrite !andb_true_iff. intros [[[[Ht Hf] Hh] Hw] Hd].
  destruct o. simpl in *. unfold JSON_parse. simpl.
  by rewrite !json_value_exact.
Qed.
End FetchFacts.

(** C3, as the program has it.  For a city outside the monitored set the
    handler of [GET /api/weather/:city] answers 400 "Invalid city" whatever
    the store holds.  [fetchWeatherData] has no such check: on a cache miss
    it calls the provider for that city, and the only rejection it ever
    gives is the provider's connection error. *)
Theorem unknown_city (L : string) :
  L ∉ cities →
  (∀ db, Api.getLatest db L
         = {| Api.status := 400; Api.json := Api.ErrorBody "Invalid city" |})
  ∧ (∀ now provider cache,
       Fetch.getAsync now cache (Fetch.cacheKey L) = None →
       head (Fetch.trace (Fetch.fetchWeatherData now provider cache L))
         = Some (Fetch.ProviderCall L))
  ∧ (∀ now provider cache reason,
       Fetch.outcome (Fetch.fetchWeatherData now provider cache L)
         = Fetch.Rejected reason →
       ∃ message, provider L = Fetch.NetworkError message
                  ∧ reason = ("Error: " ++ message)%string).
Proof.
  intros Hout. split; [|split].
  - intros db. unfold Api.getLatest. by destruct (decide (L ∈ cities)).
  - intros now provider cache Hmiss. unfold Fetch.fetchWeatherData. rewrite Hmiss.
    destruct (provider L) as [message|[response|]]; simpl; try done.
    by destruct (Fetch.processedData L response).
  - intros now provider cache reason. apply fetch_rejected.
Qed.

Lemma unknown_city_witness :
("Paris"%string ∉ cities)
  ∧ Api.getLatest (Some Inputs.heat_window) "Paris"
    = {| Api.status := 400; Api.json := Api.ErrorBody "Invalid city" |}.
Proof.
  assert ("Paris"%string ∉ cities) as Hout.
  { intros Hin. apply list_elem_of_In in Hin. vm_compute in Hin.
    repeat (destruct Hin as [Hin|Hin]; [discriminate Hin|]). exact Hin. }
  split; [exact Hout|].
  exact (proj1 (unknown_city "Paris" Hout) (Some Inputs.heat_window)).
Defined.

(** C3 as stated fails: Paris is not monitored, and [fetchWeatherData]
    for Paris calls the provider and resolves with an observation. *)
Lemma fetch_unknown_city_resolves :
("Paris"%string ∉ cities)
  ∧ let r := Fetch.fetchWeatherData 1717223400
               (λ _, Fetch.Body (Some (Inputs.clear_sky 290))) ∅ "Paris" in
    (∃ o, Fetch.outcome r = Fetch.Resolved o ∧ Fetch.city o = "Paris"%string)
    ∧ Fetch.provider_calls (Fetch.trace r) = 1%nat
    ∧ ∀ reason, Fetch.outcome r ≠ Fetch.Rejected reason.
Proof.
  split.
  - intros Hin. apply list_elem_of_In in Hin. vm_compute in Hin.
    repeat (destruct Hin as [Hin|Hin]; [discriminate Hin|]). exact Hin.
  - repeat split.
    + eexists. split; [vm_compute; reflexivity|reflexivity].
    + intros reason. vm_compute. discriminate.
Qed.

(** C4. The provider answers a cache miss with the body of an invalid key:
    the promise returned by [fetchWeatherData] is never settled; it is not
    rejected, with any reason.  The provider was called once. *)
Theorem malformed_payload_never_settles :
  let r := Fetch.fetchWeatherData 1717223400
             (λ _, Fetch.Body (Some Inputs.invalid_key_body)) ∅ "Delhi" in
  Fetch.outcome r = Fetch.Pending
  ∧ (∀ reason, Fetch.outcome r ≠ Fetch.Rejected reason)
  ∧ Fetch.trace r = [Fetch.ProviderCall "Delhi"].
Proof. repeat split. intros reason. vm_compute. discriminate. Qed.

(** C5 as stated fails twice.  A miss on which the connection fails writes
    nothing to the cache.  And when the payload has no [temp], the first
    call resolves with the temperature [NaN], which the cache keeps as
    [null]: the second call returns another observation. *)
Lemma cache_round_trip_fails :
  (let r := Fetch.fetchWeatherData 1717223400
              (λ _, Fetch.NetworkError "connect ETIMEDOUT") ∅ "Delhi" in
   Fetch.getAsync 1717223400 ∅ (Fetch.cacheKey "Delhi") = None
   ∧ Fetch.cache_writes (Fetch.trace r) = 0%nat)
  ∧ (let first := Fetch.fetchWeatherData 1717223400
                    (λ _, Fetch.Body (Some Inputs.no_temperature)) ∅ "Delhi" in
     let second := Fetch.fetchWeatherData 1717223401
                     (λ _, Fetch.Body (Some Inputs.no_temperature))
                     (Fetch.cache_after first) "Delhi" in
     ∃ o1 o2, Fetch.outcome first = Fetch.Resolved o1
       ∧ Fetch.outcome second = Fetch.Resolved o2
       ∧ Fetch.temp o1 = Fetch.JNumber nan
       ∧ Fetch.temp o2 = Fetch.JNull
       ∧ o1 ≠ o2).
Proof.
  split; [split; vm_compute; reflexivity|].
  eexists. eexists.
  split; [vm_compute; reflexivity|].
  split; [vm_compute; reflexivity|].
  split; [vm_compute; reflexivity|].
  split; [vm_compute; reflexivity|].
  intros Heq. apply (f_equal Fetch.temp) in Heq. vm_compute in Heq. discriminate Heq.
Qed.

(** C5, as the program has it.  A cache miss on which the call resolves
    with [o] called the provider once and wrote the cache once.  A second
    call for the same city less than 300 seconds later calls nothing,
    writes nothing, and resolves with [o] as JSON gives it back, which is
    [o] itself when none of its numbers is [NaN], infinite or [-0].  A
    cache miss writes once when the call resolves and not at all
    otherwise; a hit never writes. *)
Theorem cache_round_trip :
  (∀ (now later : Z) (provider provider' : string → Fetch.ProviderReply)
     (cache : gmap string (Fetch.json_text * Z)) (c : string) (o : Fetch.Observation),
     Fetch.getAsync now cache (Fetch.cacheKey c) = None →
     Fetch.outcome (Fetch.fetchWeatherData now provider cache c) = Fetch.Resolved o →
     (now ≤ later < now + 300)%Z →
     let first := Fetch.fetchWeatherData now provider cache c in
     let second := Fetch.fetchWeatherData later provider' (Fetch.cache_after first) c in
     Fetch.provider_calls (Fetch.trace first) = 1%nat
     ∧ Fetch.cache_writes (Fetch.trace first) = 1%nat
     ∧ Fetch.outcome second
       = Fetch.Resolved (Fetch.JSON_parse (Fetch.JSON_stringify o))
     ∧ (Fetch.survives_json o = true → Fetch.outcome second = Fetch.Resolved o)
     ∧ Fetch.provider_calls (Fetch.trace second) = 0%nat
     ∧ Fetch.cache_writes (Fetch.trace second) = 0%nat
     ∧ Fetch.cache_after second = Fetch.cache_after first)
  ∧ (∀ (now : Z) (provider : string → Fetch.ProviderReply)
       (cache : gmap string (Fetch.json_text * Z)) (c : string),
       let r := Fetch.fetchWeatherData now provider cache c in
       Fetch.cache_writes (Fetch.trace r) =
         match Fetch.getAsync now cache (Fetch.cacheKey c), Fetch.outcome r with
         | None, Fetch.Resolved _ => 1%nat
         | _, _ => 0%nat
         end).
Proof.
  split.
  - intros now later provider provider' cache c o Hmiss Hres Hlater first second.
    destruct (fetch_miss_resolved now provider cache c o Hmiss Hres)
      as (response & Hp & Hbuild & Hfirst).
    assert (second = {| Fetch.outcome :=
                          Fetch.Resolved (Fetch.JSON_parse (Fetch.JSON_stringify o));
                        Fetch.cache_after := Fetch.cache_after first;
                        Fetch.trace := [] |}) as Hsecond.
    { subst second. apply fetch_hit. subst first. rewrite Hfirst. simpl.
      apply getAsync_setAsync. lia. }
    rewrite Hsecond. subst first. rewrite Hfirst.
    cbn [Fetch.outcome Fetch.trace Fetch.cache_after].
    repeat split; try reflexivity.
    intros Hsafe. by rewrite JSON_round_trip.
  - intros now provider cache c r. subst r. unfold Fetch.fetchWeatherData.
    destruct (Fetch.getAsync now cache (Fetch.cacheKey c)); simpl; [done|].
    destruct (provider c) as [message|[response|]]; simpl; try done.
    by destruct (Fetch.processedData c response).
Qed.

Lemma cache_round_trip_witness :
  let first := Fetch.fetchWeatherData 1717223400
                 (λ _, Fetch.Body (Some (Inputs.clear_sky 312.55))) ∅ "Delhi" in
  let second := Fetch.fetchWeatherData 1717223699
                  (λ _, Fetch.NetworkError "connect ETIMEDOUT")
                  (Fetch.cache_after first) "Delhi" in
  Fetch.outcome second = Fetch.outcome first
  ∧ Fetch.trace second = [].
Proof.
  pose proof (proj1 cache_round_trip 1717223400%Z 1717223699%Z
                (λ _, Fetch.Body (Some (Inputs.clear_sky 312.55)))
                (λ _, Fetch.NetworkError "connect ETIMEDOUT") ∅ "Delhi" _
                eq_refl eq_refl ltac:(lia)) as H.
  simpl in H. destruct H as (_ & _ & _ & Hsame & _).
  split; [|vm_compute; reflexivity].
  rewrite (Hsame ltac:(vm_compute; reflexivity)). vm_compute. reflexivity.
Defined.

(** C8. The conversion is [toDisplayUnit x = x - 273.15] for every [x], a
    function with no error case, with [toDisplayUnit 273.15 = 0]; every
    observation built from a payload carries it in both [temp] and
    [feels_like]. *)
Theorem conversion_at_ingestion :
  (∀ x : float, Fetch.toDisplayUnit x = x - 273.15)
  ∧ Fetch.toDisplayUnit 273.15 = 0
  ∧ (∀ (c : string) (response : Fetch.Response) (o : Fetch.Observation),
       Fetch.processedData c response = Some o →
       ∃ m, Fetch.r_main response = Some m
         ∧ Fetch.temp o
           = Fetch.JNumber (Fetch.toDisplayUnit (Fetch.ToNumber (Fetch.main_temp m)))
         ∧ Fetch.feels_like o
           = Fetch.JNumber
               (Fetch.toDisplayUnit (Fetch.ToNumber (Fetch.main_feels_like m)))).
Proof.
  split; [done|]. split; [vm_compute; reflexivity|].
  intros c response o. unfold Fetch.processedData.
  destruct (Fetch.r_weather response) as [weather|]; simpl; [|discriminate].
  destruct (head weather) as [weather0|]; simpl; [|discriminate].
  destruct (Fetch.r_main response) as [m|]; simpl; [|discriminate].
  destruct (Fetch.r_wind response) as [wind|]; simpl; [|discriminate].
  intros [= <-]. by exists m.
Qed.

Lemma conversion_at_ingestion_witness :
  ∃ o, Fetch.processedData "Delhi" (Inputs.clear_sky 309.15) = Some o
    ∧ Fetch.temp o = Fetch.JNumber (Fetch.toDisplayUnit 309.15)
    ∧ (35.999 <? Fetch.toDisplayUnit 309.15) = true
    ∧ (Fetch.toDisplayUnit 309.15 <? 36.001) = true.
Proof.
  eexists. split; [reflexivity|].
  destruct (proj2 (proj2 conversion_at_ingestion) "Delhi" (Inputs.clear_sky 309.15) _ eq_refl)
    as (m & Hm & Ht & _).
  injection Hm as <-. split; [exact Ht|]. split; vm_compute; reflexivity.
Defined.

(** ** The sweep *)

Section SweepFacts.
Import Fetch Scheduler.

Lemma fetch_settles (w : World) (cache : gmap string (json_text * Z)) (c : string) :
  settles c (provider w c) = true →
  outcome (fetchWeatherData (now w) (provider w) cache c) ≠ Pending.
Proof.
  unfold settles, fetchWeatherData.
  destruct (getAsync (now w) cache (cacheKey c)); simpl; [done|].
  destruct (provider w c) as [message|[response|]]; simpl; try done.
  by destruct (processedData c response).
Qed.

(** A city whose fetch settles is either saved or logged, and the loop
    goes on. *)
Lemma process_settled (w : World) (st : State) (c : string) :
  settles c (provider w c) = true →
  ∃ st', process w st c = Continue st' ∧ handled st' = S (handled st).
Proof.
  intros Hs. pose proof (fetch_settles w (cache st) c Hs) as Hnp.
  unfold process, handled.
  destruct (outcome (fetchWeatherData (now w) (provider w) (cache st) c))
    as [data|error|]; [| |done].
  - unfold saveWeatherData. destruct (save_ok w _).
    + destruct (Alert.checkAndSendAlert _ _ _) as [counts sent].
      eexists. split; [reflexivity|]. simpl. rewrite length_app. simpl. lia.
    + eexists. split; [reflexivity|]. simpl. rewrite length_app. simpl. lia.
  - eexists. split; [reflexivity|]. simpl. rewrite length_app. simpl. lia.
Qed.

(** X16. Rejections are isolated: when every fetch of the sweep settles,
    the sweep reaches its end and every city was either saved or logged. *)
Lemma sweep_isolates_rejections (w : World) (cs : list string) (st : State) :
  (∀ c, c ∈ cs → settles c (provider w c) = true) →
  ∃ st', sweep_over w cs st = Continue st'
         ∧ handled st' = (handled st + length cs)%nat.
Proof.
  revert st. induction cs as [|c cs IH]; intros st Hall; simpl.
  - exists st. split; [done|lia].
  - destruct (process_settled w st c) as (st1 & Hp & Hh1).
    { apply Hall. by left. }
    rewrite Hp.
    destruct (IH st1) as (st' & Hs & Hh').
    { intros c' Hc'. apply Hall. by right. }
    exists st'. split; [done|lia].
Qed.

(** A fetch that never settles stops the sweep where it is. *)
Lemma sweep_stalls (w : World) (c : string) (cs : list string) (st : State) :
  outcome (fetchWeatherData (now w) (provider w) (cache st) c) = Pending →
  ∃ st', sweep_over w (c :: cs) st = Suspended st'
         ∧ saved st' = saved st ∧ errors st' = errors st.
Proof.
  intros Hp. simpl. unfold process. rewrite Hp. by eexists.
Qed.
End SweepFacts.

(** The connection fails for Delhi only: the error is logged and the five
    other cities are fetched and saved. *)
Example sweep_after_connection_error :
  let p := Scheduler.sweep Inputs.delhi_unreachable Scheduler.initial in
  Scheduler.suspended p = false
  ∧ Scheduler.errors (Scheduler.state_of p)
    = [("Delhi"%string, "Error: connect ETIMEDOUT"%string)]
  ∧ map (λ d, Fetch.city (Scheduler.doc_data d)) (Scheduler.saved (Scheduler.state_of p))
    = ["Mumbai"; "Chennai"; "Bangalore"; "Kolkata"; "Hyderabad"]%string.
Proof.
  cbv zeta. split; [vm_compute; reflexivity|].
  split; vm_compute; reflexivity.
Qed.

(** C9. The provider refuses the key for Delhi, the first city, and
    answers for the others.  The sweep is suspended in Delhi's fetch: no
    error is caught, nothing is saved, and no other city is fetched,
    though Mumbai's reply is one that settles. *)
Theorem sweep_stops_at_malformed_payload :
  let p := Scheduler.sweep Inputs.delhi_refused Scheduler.initial in
  Scheduler.suspended p = true
  ∧ Scheduler.saved (Scheduler.state_of p) = []
  ∧ Scheduler.errors (Scheduler.state_of p) = []
  ∧ Scheduler.events (Scheduler.state_of p) = [Fetch.ProviderCall "Delhi"]
  ∧ Scheduler.settles "Mumbai"
      (Scheduler.provider Inputs.delhi_refused "Mumbai") = true.
Proof.
  cbv zeta. split; [vm_compute; reflexivity|].
  split; [vm_compute; reflexivity|].
  split; [vm_compute; reflexivity|].
  split; vm_compute; reflexivity.
Qed.

(** * Further properties of the code *)

(** ** The alert counters *)

Section AlertMore.
Import Alert Polling.
Implicit Types (city : string) (temp : float) (counts : gmap string nat).

(** X1. A call for one city leaves the entry of every other city as it
    was. *)
Theorem checkAndSendAlert_other_city city other temp counts :
  city ≠ other →
  fst (checkAndSendAlert city temp counts) !! other = counts !! other.
Proof.
  intros Hne. unfold checkAndSendAlert.
  destruct (alertThreshold <? temp); simpl.
  - rewrite lookup_insert_eq. destruct (decide _); simpl;
      by rewrite ?lookup_insert_ne.
  - by rewrite lookup_insert_ne.
Qed.

Lemma checkAndSendAlert_other_city_witness :
  fst (checkAndSendAlert "Delhi" 40 (<["Mumbai" := 1%nat]> ∅)) !! "Mumbai"
  = Some 1%nat.
Proof.
  rewrite (checkAndSendAlert_other_city "Delhi" "Mumbai" 40 (<["Mumbai" := 1%nat]> ∅)).
  - reflexivity.
  - discriminate.
Defined.

(** X2. A mail goes out exactly when the reading is above the threshold
    and the city's count was already at least one; the mail carries that
    city and that reading. *)
Theorem mail_iff_second_hot_reading city temp counts :
  snd (checkAndSendAlert city temp counts) =
    if (alertThreshold <? temp) && bool_decide (1 ≤ count_of counts city)%nat
    then [Email city temp] else [].
Proof.
  unfold checkAndSendAlert. destruct (alertThreshold <? temp); simpl; [|done].
  rewrite lookup_insert_eq. unfold alertConsecutiveCount.
  destruct (decide _) as [Hge|Hlt]; simpl.
  - rewrite bool_decide_eq_true_2; [done|lia].
  - rewrite bool_decide_eq_false_2; [done|lia].
Qed.

Lemma observe_all_length city (temps : list float) counts :
  length (snd (observe_all city temps counts)) = length temps.
Proof.
  revert counts. induction temps as [|t temps IH]; intros counts; [done|].
  rewrite observe_all_cons. simpl. by rewrite IH.
Qed.

Lemma heat_wave_from city (temps : list float) counts :
  Forall hot temps →
  (count_of counts city ≤ 1)%nat →
  (∀ i d, snd (observe_all city temps counts) !! i = Some d →
     d = if Nat.odd (i + count_of counts city) then Alert else NoAlert)
  ∧ count_of (fst (observe_all city temps counts)) city
    = ((count_of counts city + length temps) `mod` 2)%nat.
Proof.
  intros Hhot. revert counts.
  induction Hhot as [|t temps Ht Hhot IH]; intros counts Hc.
  - split; [intros i d Hi; by destruct i|].
    cbn [observe_all fst length]. rewrite Nat.add_0_r. symmetry.
    apply Nat.mod_small. lia.
  - rewrite observe_all_cons. cbn [fst snd].
    rewrite (observe_above city t counts Ht). unfold alertConsecutiveCount.
    destruct (decide (2 ≤ count_of counts city + 1)%nat) as [Hge|Hlt]; cbn [fst snd].
    + assert (count_of counts city = 1%nat) as H1 by lia.
      destruct (IH (<[city := 0%nat]> counts)) as [Hds Hfin].
      { rewrite count_of_insert. lia. }
      rewrite count_of_insert in Hds, Hfin. split.
      * intros [|i] d Hi; simpl in Hi.
        -- injection Hi as <-. by rewrite H1.
        -- rewrite (Hds i d Hi), H1.
           replace (S i + 1)%nat with (S (S (i + 0))) by lia. by rewrite Nat.odd_succ_succ.
      * rewrite Hfin, H1. simpl length.
        replace (1 + S (length temps))%nat with (0 + length temps + 1 * 2)%nat by lia.
        by rewrite Nat.Div0.mod_add.
    + assert (count_of counts city = 0%nat) as H0 by lia.
      destruct (IH (<[city := (count_of counts city + 1)%nat]> counts)) as [Hds Hfin].
      { rewrite count_of_insert. lia. }
      rewrite count_of_insert in Hds, Hfin. split.
      * intros [|i] d Hi; simpl in Hi.
        -- injection Hi as <-. by rewrite H0.
        -- rewrite (Hds i d Hi), H0. by replace (S i + 0)%nat with (i + (0 + 1))%nat by lia.
      * rewrite Hfin, H0. simpl length. f_equal; lia.
Qed.

(** X3. Through a run of readings that are all above the threshold, from a
    count of 0, the decisions alternate: [NoAlert] at the even positions,
    [Alert] at the odd ones; the count left is the parity of the length. *)
Theorem heat_wave_alternates city (temps : list float) counts :
  Forall hot temps →
  count_of counts city = 0%nat →
  length (snd (observe_all city temps counts)) = length temps
  ∧ (∀ i d, snd (observe_all city temps counts) !! i = Some d →
       d = if Nat.odd i then Alert else NoAlert)
  ∧ count_of (fst (observe_all city temps counts)) city = (length temps `mod` 2)%nat.
Proof.
  intros Hhot H0. split; [apply observe_all_length|].
  destruct (heat_wave_from city temps counts Hhot) as [Hds Hfin]; [lia|].
  rewrite H0 in Hds, Hfin. split; [|done].
  intros i d Hi. rewrite (Hds i d Hi). by rewrite Nat.add_0_r.
Qed.

Lemma heat_wave_alternates_witness :
  snd (observe_all "Delhi" [36; 37; 38; 39; 40] ∅) !! 3%nat = Some Alert
  ∧ count_of (fst (observe_all "Delhi" [36; 37; 38; 39; 40] ∅)) "Delhi" = 1%nat.
Proof.
  assert (Forall hot [36; 37; 38; 39; 40]) as Hhot by (repeat constructor).
  assert (count_of (∅ : gmap string nat) "Delhi" = 0%nat) as H0 by reflexivity.
  destruct (heat_wave_alternates "Delhi" [36; 37; 38; 39; 40] ∅ Hhot H0)
    as (Hlen & Hds & Hfin).
  split; [|exact Hfin].
  destruct (snd (observe_all "Delhi" [36; 37; 38; 39; 40] ∅) !! 3%nat) as [d|] eqn:E.
  - by rewrite (Hds 3%nat d E).
  - apply lookup_ge_None in E. rewrite Hlen in E. simpl in E. lia.
Defined.

Lemma alert_needs_previous city (temps : list float) counts i :
  snd (observe_all city temps counts) !! i = Some Alert →
  (∃ t, temps !! i = Some t ∧ hot t)
  ∧ (i = 0%nat → 1 ≤ count_of counts city)%nat
  ∧ (∀ j, i = S j → ∃ t, temps !! j = Some t ∧ hot t).
Proof.
  revert counts i. induction temps as [|t temps IH]; intros counts i; [by destruct i|].
  rewrite observe_all_cons. cbn [fst snd].
  destruct (alertThreshold <? t) eqn:Ht.
  - rewrite (observe_above city t counts Ht). unfold alertConsecutiveCount.
    destruct (decide (2 ≤ count_of counts city + 1)%nat) as [Hge|Hlt]; cbn [fst snd].
    + destruct i as [|i]; simpl.
      * intros _. split; [by exists t|]. split; [lia|done].
      * intros Hi. destruct (IH _ _ Hi) as (Hhot & Hzero & Hprev).
        split; [done|]. split; [done|].
        intros j [= <-]. destruct i as [|i]; [by exists t|].
        simpl. by apply Hprev.
    + destruct i as [|i]; simpl; [discriminate|].
      intros Hi. destruct (IH _ _ Hi) as (Hhot & Hzero & Hprev).
      split; [done|]. split; [done|].
      intros j [= <-]. destruct i as [|i]; [by exists t|].
      simpl. by apply Hprev.
  - rewrite (observe_not_above city t counts Ht). cbn [fst snd].
    destruct i as [|i]; simpl; [discriminate|].
    intros Hi. destruct (IH _ _ Hi) as (Hhot & Hzero & Hprev).
    split; [done|]. split; [done|].
    intros j [= <-]. destruct i as [|i].
    + specialize (Hzero eq_refl). rewrite count_of_insert in Hzero. lia.
    + simpl. by apply Hprev.
Qed.

(** X4. From a count of 0, an [Alert] is never the answer to the first
    reading, and whenever it is the answer to a reading, that reading and
    the one just before it were both above the threshold. *)
Theorem alert_needs_two_hot_readings city (temps : list float) counts i :
  count_of counts city = 0%nat →
  snd (observe_all city temps counts) !! i = Some Alert →
  ∃ j t_prev t, i = S j ∧ temps !! j = Some t_prev ∧ temps !! i = Some t
    ∧ hot t_prev ∧ hot t.
Proof.
  intros H0 Hi. destruct (alert_needs_previous city temps counts i Hi)
    as ((t & Hti & Ht) & Hzero & Hprev).
  destruct i as [|j]; [specialize (Hzero eq_refl); lia|].
  destruct (Hprev j eq_refl) as (tp & Htp & Hp).
  by exists j, tp, t.
Qed.

Lemma alert_needs_two_hot_readings_witness :
  ∃ j t_prev t, 2%nat = S j
    ∧ [10; 36; 37] !! j = Some t_prev ∧ [10; 36; 37] !! 2%nat = Some t
    ∧ hot t_prev ∧ hot t.
Proof.
  apply (alert_needs_two_hot_readings "Delhi" [10; 36; 37] ∅ 2).
  - reflexivity.
  - vm_compute. reflexivity.
Defined.
End AlertMore.

(** ** The order of the numbers that are not NaN *)

Section FloatOrderFacts.
Import SpecFloat FloatOrder.

Lemma SFcompare_rank (f1 f2 : spec_float) :
  SFcompare f1 f2 =
    match rank f1, rank f2 with
    | Some a, Some b => Some (lexcmp a b)
    | _, _ => None
    end.
Proof.
  destruct f1 as [s1|s1| |s1 m1 e1], f2 as [s2|s2| |s2 m2 e2];
    try destruct s1; try destruct s2; try reflexivity.
  unfold rank, lexcmp. cbn [fst snd SFcompare].
  rewrite Z.compare_opp, (Z.compare_antisym e1 e2).
  destruct (e1 ?= e2)%Z; reflexivity.
Qed.

Lemma lexcmp_spec (a b : Z * Z * Z) :
  CompareSpec (a = b) (lexlt a b) (lexlt b a) (lexcmp a b).
Proof.
  destruct a as [[a1 a2] a3], b as [[b1 b2] b3]. unfold lexcmp, lexlt. simpl.
  destruct (Z.compare_spec a1 b1); [|constructor; lia|constructor; lia].
  destruct (Z.compare_spec a2 b2); [|constructor; lia|constructor; lia].
  destruct (Z.compare_spec a3 b3); constructor; [congruence|lia|lia].
Qed.

Lemma lexlt_trans (a b c : Z * Z * Z) : lexlt a b → lexlt b c → lexlt a c.
Proof. unfold lexlt. lia. Qed.

Lemma lexlt_irrefl (a : Z * Z * Z) : ¬ lexlt a a.
Proof. unfold lexlt. lia. Qed.

Lemma ltb_rank (x y : float) :
  (x <? y) = true ↔
  ∃ a b, rank (Prim2SF x) = Some a ∧ rank (Prim2SF y) = Some b ∧ lexlt a b.
Proof.
  rewrite ltb_spec. unfold SFltb. rewrite SFcompare_rank.
  destruct (rank (Prim2SF x)) as [a|], (rank (Prim2SF y)) as [b|];
    try (split; [discriminate|intros (?&?&?&?&?); discriminate]).
  destruct (lexcmp_spec a b) as [Heq|Hlt|Hgt].
  - split; [discriminate|]. intros (a' & b' & [= <-] & [= <-] & H). subst.
    by apply lexlt_irrefl in H.
  - split; [|done]. intros _. by exists a, b.
  - split; [discriminate|]. intros (a' & b' & [= <-] & [= <-] & H).
    destruct (lexlt_irrefl a). by eapply lexlt_trans.
Qed.

Lemma leb_rank (x y : float) :
  (x <=? y) = true ↔
  ∃ a b, rank (Prim2SF x) = Some a ∧ rank (Prim2SF y) = Some b ∧ (a = b ∨ lexlt a b).
Proof.
  rewrite leb_spec. unfold SFleb. rewrite SFcompare_rank.
  destruct (rank (Prim2SF x)) as [a|], (rank (Prim2SF y)) as [b|];
    try (split; [discriminate|intros (?&?&?&?&?); discriminate]).
  destruct (lexcmp_spec a b) as [Heq|Hlt|Hgt].
  - split; [|done]. intros _. exists a, b. auto.
  - split; [|done]. intros _. exists a, b. auto.
  - split; [discriminate|]. intros (a' & b' & [= <-] & [= <-] & [->|H]).
    + by apply lexlt_irrefl in Hgt.
    + destruct (lexlt_irrefl a). by eapply lexlt_trans.
Qed.

Lemma eqb_rank (x y : float) :
  (x =? y) = true ↔ ∃ a, rank (Prim2SF x) = Some a ∧ rank (Prim2SF y) = Some a.
Proof.
  rewrite FloatAxioms.eqb_spec. unfold SFeqb. rewrite SFcompare_rank.
  destruct (rank (Prim2SF x)) as [a|], (rank (Prim2SF y)) as [b|];
    try (split; [discriminate|intros (?&?&?); discriminate]).
  destruct (lexcmp_spec a b) as [Heq|Hlt|Hgt].
  - split; [|done]. intros _. exists a. by subst.
  - split; [discriminate|]. intros (a' & [= <-] & [= <-]). by apply lexlt_irrefl in Hlt.
  - split; [discriminate|]. intros (a' & [= <-] & [= <-]). by apply lexlt_irrefl in Hgt.
Qed.

Lemma not_nan_rank (x : float) :
  is_nan x = false ↔ ∃ a, rank (Prim2SF x) = Some a.
Proof.
  unfold is_nan. split.
  - intros H%negb_false_iff. apply eqb_rank in H as (a & H & _). by exists a.
  - intros (a & H). apply negb_false_iff, eqb_rank. by exists a.
Qed.

Lemma leb_refl (x : float) : is_nan x = false → (x <=? x) = true.
Proof. intros (a & H)%not_nan_rank. apply leb_rank. exists a, a. auto. Qed.

Lemma ltb_leb (x y : float) : (x <? y) = true → (x <=? y) = true.
Proof.
  intros (a & b & ? & ? & ?)%ltb_rank. apply leb_rank. exists a, b. auto.
Qed.

Lemma leb_total (x y : float) :
  is_nan x = false → is_nan y = false → (x <? y) = false → (y <=? x) = true.
Proof.
  intros (a & Ha)%not_nan_rank (b & Hb)%not_nan_rank Hnlt.
  apply leb_rank. exists b, a. split; [done|]. split; [done|].
  destruct (lexcmp_spec a b) as [Heq|Hlt|Hgt]; auto.
  assert ((x <? y) = true) as Hlt' by (apply ltb_rank; by exists a, b).
  congruence.
Qed.

Lemma leb_trans (x y z : float) :
  (x <=? y) = true → (y <=? z) = true → (x <=? z) = true.
Proof.
  intros (a & b & Ha & Hb & Hab)%leb_rank (b' & c & Hb' & Hc & Hbc)%leb_rank.
  rewrite Hb in Hb'. injection Hb' as <-.
  apply leb_rank. exists a, c. split; [done|]. split; [done|].
  destruct Hab as [->|Hab], Hbc as [->|Hbc]; auto.
  right. by eapply lexlt_trans.
Qed.

Lemma leb_not_nan (x y : float) :
  (x <=? y) = true → is_nan x = false ∧ is_nan y = false.
Proof.
  intros (a & b & ? & ? & _)%leb_rank. split; apply not_nan_rank; eauto.
Qed.

Lemma zeros_leb (x y : float) :
  is_zero x = true → is_zero y = true → (x <=? y) = true.
Proof.
  unfold is_zero. intros (a & Ha & Hz)%eqb_rank (b & Hb & Hz')%eqb_rank.
  rewrite Hz in Hz'. injection Hz' as <-.
  apply leb_rank. exists a, a. auto.
Qed.
End FloatOrderFacts.

(** ** The extremes of the summary *)

Section ExtremeFacts.
Import JS.

Lemma max2_bounds (highest x : float) :
  is_nan highest = false → is_nan x = false →
  is_nan (max2 highest x) = false
  ∧ (highest <=? max2 highest x) = true ∧ (x <=? max2 highest x) = true.
Proof.
  intros Hh Hx. unfold max2. rewrite Hh, Hx. cbn [orb].
  destruct (highest <? x) eqn:Hlt.
  - split; [done|]. split; [by apply ltb_leb|by apply leb_refl].
  - destruct (is_zero highest && is_zero x && get_sign highest && negb (get_sign x))
      eqn:Hz.
    + apply andb_true_iff in Hz as [[[Hzh Hzx]%andb_true_iff _]%andb_true_iff _].
      split; [done|]. split; [by apply zeros_leb|by apply leb_refl].
    + split; [done|]. split; [by apply leb_refl|by apply leb_total].
Qed.

Lemma min2_bounds (lowest x : float) :
  is_nan lowest = false → is_nan x = false →
  is_nan (min2 lowest x) = false
  ∧ (min2 lowest x <=? lowest) = true ∧ (min2 lowest x <=? x) = true.
Proof.
  intros Hl Hx. unfold min2. rewrite Hl, Hx. cbn [orb].
  destruct (x <? lowest) eqn:Hlt.
  - split; [done|]. split; [by apply ltb_leb|by apply leb_refl].
  - destruct (is_zero lowest && is_zero x && negb (get_sign lowest) && get_sign x)
      eqn:Hz.
    + apply andb_true_iff in Hz as [[[Hzl Hzx]%andb_true_iff _]%andb_true_iff _].
      split; [done|]. split; [by apply zeros_leb|by apply leb_refl].
    + split; [done|]. split; [by apply leb_refl|by apply leb_total].
Qed.

Lemma fold_max2_bounds (xs : list float) (highest : float) :
  is_nan highest = false → Forall (λ x, is_nan x = false) xs →
  is_nan (fold_left max2 xs highest) = false
  ∧ (highest <=? fold_left max2 xs highest) = true
  ∧ Forall (λ x, (x <=? fold_left max2 xs highest) = true) xs.
Proof.
  intros Hh Hxs. revert highest Hh.
  induction Hxs as [|x xs Hx Hxs IH]; intros highest Hh; simpl.
  - split; [done|]. split; [by apply leb_refl|constructor].
  - destruct (max2_bounds highest x Hh Hx) as (Hn & Hhm & Hxm).
    destruct (IH _ Hn) as (Hr & Hmr & Hall).
    split; [done|]. split; [by eapply leb_trans|].
    constructor; [by eapply leb_trans|done].
Qed.

Lemma fold_min2_bounds (xs : list float) (lowest : float) :
  is_nan lowest = false → Forall (λ x, is_nan x = false) xs →
  is_nan (fold_left min2 xs lowest) = false
  ∧ (fold_left min2 xs lowest <=? lowest) = true
  ∧ Forall (λ x, (fold_left min2 xs lowest <=? x) = true) xs.
Proof.
  intros Hl Hxs. revert lowest Hl.
  induction Hxs as [|x xs Hx Hxs IH]; intros lowest Hl; simpl.
  - split; [done|]. split; [by apply leb_refl|constructor].
  - destruct (min2_bounds lowest x Hl Hx) as (Hn & Hml & Hmx).
    destruct (IH _ Hn) as (Hr & Hrm & Hall).
    split; [done|]. split; [by eapply leb_trans|].
    constructor; [by eapply leb_trans|done].
Qed.
End ExtremeFacts.

(** X5. In a window none of whose temperatures is [NaN], every temperature
    lies between [minTemp] and [maxTemp] of the summary, and [minTemp] is
    at most [maxTemp]. *)
Theorem extremes_bound_the_window
    (c : string) (start : Z) (data : list Aggregator.WeatherData)
    (d : Aggregator.WeatherData) :
  Forall (λ d, is_nan (Aggregator.temp d) = false) data →
  d ∈ data →
  let s := Aggregator.summary_of c start data in
  (Aggregator.minTemp s <=? Aggregator.temp d) = true
  ∧ (Aggregator.temp d <=? Aggregator.maxTemp s) = true
  ∧ (Aggregator.minTemp s <=? Aggregator.maxTemp s) = true.
Proof.
  intros Hnan Hd s.
  assert (Forall (λ x, is_nan x = false) (map Aggregator.temp data)) as Hxs.
  { apply Forall_map. exact Hnan. }
  assert (Aggregator.temp d ∈ map Aggregator.temp data) as Hin.
  { apply list_elem_of_fmap. by exists d. }
  destruct (fold_max2_bounds _ neg_infinity eq_refl Hxs) as (_ & _ & Hmax).
  destruct (fold_min2_bounds _ infinity eq_refl Hxs) as (_ & _ & Hmin).
  rewrite Forall_forall in Hmax, Hmin.
  specialize (Hmax _ Hin). specialize (Hmin _ Hin).
  split; [exact Hmin|]. split; [exact Hmax|].
  exact (leb_trans _ _ _ Hmin Hmax).
Qed.

Lemma extremes_bound_the_window_witness :
  let s := Aggregator.summary_of "Delhi" 0 Inputs.heat_window in
  (Aggregator.minTemp s <=? Aggregator.temp Inputs.heat_reading) = true
  ∧ (Aggregator.temp Inputs.heat_reading <=? Aggregator.maxTemp s) = true
  ∧ (Aggregator.minTemp s <=? Aggregator.maxTemp s) = true.
Proof.
  apply (extremes_bound_the_window "Delhi" 0 Inputs.heat_window Inputs.heat_reading).
  - unfold Inputs.heat_window. apply Forall_forall. intros d Hd.
    apply list_elem_of_In, repeat_spec in Hd. by subst.
  - by left.
Defined.

(** ** More on the most frequent condition *)

(** X6. [getMostFrequent] returns [undefined] for the empty array only,
    and otherwise an element of the array. *)
Theorem getMostFrequent_member (arr : list string) :
  (Aggregator.getMostFrequent arr = None ↔ arr = [])
  ∧ ∀ x, Aggregator.getMostFrequent arr = Some x → x ∈ arr.
Proof.
  unfold Aggregator.getMostFrequent.
  destruct (decide (arr = [])) as [->|Hne].
  - split; [done|]. intros x. simpl. discriminate.
  - destruct (last_sort_rightmost_max (Aggregator.occurrences arr) arr Hne)
      as (w & pre & post & Hw & Hl & _).
    rewrite Hw. split; [split; [discriminate|done]|].
    intros x [= <-]. rewrite Hl. apply elem_of_app. right. by left.
Qed.

(** X7. A condition that occurs strictly more often than every other one
    is the result, wherever it stands in the array. *)
Theorem getMostFrequent_unique_mode (arr : list string) (x : string) :
  x ∈ arr →
  (∀ y, y ∈ arr → y ≠ x →
        (Aggregator.occurrences arr y < Aggregator.occurrences arr x)%nat) →
  Aggregator.getMostFrequent arr = Some x.
Proof.
  intros Hx Hmode. unfold Aggregator.getMostFrequent.
  assert (arr ≠ []) as Hne by (intros ->; by apply elem_of_nil in Hx).
  destruct (last_sort_rightmost_max (Aggregator.occurrences arr) arr Hne)
    as (w & pre & post & Hw & Hl & Hpre & Hpost).
  rewrite Hw. f_equal. destruct (decide (w = x)) as [->|Hwx]; [done|].
  assert (w ∈ arr) as Hwin by (rewrite Hl; apply elem_of_app; right; by left).
  specialize (Hmode w Hwin Hwx).
  assert (Aggregator.occurrences arr x ≤ Aggregator.occurrences arr w)%nat; [|lia].
  rewrite Hl in Hx. apply elem_of_app in Hx as [Hx|Hx]; [by apply Hpre|].
  apply elem_of_cons in Hx as [->|Hx]; [done|].
  specialize (Hpost x Hx). lia.
Qed.

Lemma getMostFrequent_unique_mode_witness :
  Aggregator.getMostFrequent ["Rain"; "Clear"; "Rain"; "Mist"]%string
  = Some "Rain"%string.
Proof.
  apply getMostFrequent_unique_mode.
  - by left.
  - intros y Hy Hne.
    repeat (apply elem_of_cons in Hy as [->|Hy]; [try done; vm_compute; lia|]).
    by apply elem_of_nil in Hy.
Defined.

(** ** The window of a day *)

(** X8. The window of a date starts at local midnight, lasts one day less
    a millisecond, contains the date, and is the window of every instant
    in it. *)
Theorem day_window (tz d : Z) :
  let start := Aggregator.startOfDay tz d in
  let stop := Aggregator.endOfDay tz d in
  ((start + tz) `mod` Aggregator.msPerDay = 0)%Z
  ∧ (stop - start = Aggregator.msPerDay - 1)%Z
  ∧ (start ≤ d ≤ stop)%Z
  ∧ ∀ d', (start ≤ d' ≤ stop)%Z →
      Aggregator.startOfDay tz d' = start ∧ Aggregator.endOfDay tz d' = stop.
Proof.
  unfold Aggregator.endOfDay, Aggregator.startOfDay, Aggregator.msPerDay.
  cbv zeta.
  pose proof (Z.mod_pos_bound (d + tz) 86400000 ltac:(lia)) as Hr.
  pose proof (Z.div_mod (d + tz) 86400000 ltac:(lia)) as Hdm.
  set (r := ((d + tz) `mod` 86400000)%Z) in *.
  set (q := ((d + tz) `div` 86400000)%Z) in *.
  assert (∀ d', (d - r ≤ d' ≤ d - r + 86399999)%Z →
                ((d' + tz) `mod` 86400000 = d' - (d - r))%Z) as Hsame.
  { intros d' Hd'. symmetry. apply (Z.mod_unique_pos _ _ q); lia. }
  split; [|split; [lia|split; [lia|]]].
  - rewrite (Hsame (d - r)%Z) by lia. lia.
  - intros d' Hd'. rewrite (Hsame d' Hd'). split; lia.
Qed.

(** X9. A document of another city, or dated outside the day, changes
    nothing in the summary, wherever it stands in the store. *)
Theorem summary_ignores_other_documents
    (tz : Z) (db1 db2 : list Aggregator.WeatherData)
    (other : Aggregator.WeatherData) (c : string) (d : Z) :
  Aggregator.city other ≠ c
  ∨ (Aggregator.date other < Aggregator.startOfDay tz d)%Z
  ∨ (Aggregator.endOfDay tz d < Aggregator.date other)%Z →
  Aggregator.calculateDailySummary tz (db1 ++ other :: db2) c d
  = Aggregator.calculateDailySummary tz (db1 ++ db2) c d.
Proof.
  intros Hout. unfold Aggregator.calculateDailySummary, Aggregator.find.
  rewrite !filter_app, filter_cons_False; [done|].
  intros (Hc & Hfrom & Hto). destruct Hout as [?|[?|?]]; [done|lia|lia].
Qed.

Lemma summary_ignores_other_documents_witness :
  Aggregator.calculateDailySummary Inputs.ist
    (Inputs.heat_window ++ Inputs.heat_reading :: []) "Mumbai" 1717223400000
  = Aggregator.calculateDailySummary Inputs.ist
      (Inputs.heat_window ++ []) "Mumbai" 1717223400000.
Proof.
  apply summary_ignores_other_documents. left. discriminate.
Defined.

(** ** More on the fetcher *)

Section FetchMore.
Import Fetch.
Implicit Types (now later : Z) (provider : string → ProviderReply)
  (cache : gmap string (json_text * Z)) (c : string).

(** X10. On a cache miss answered with a JSON object, the returned promise
    stays pending exactly when [weather] is missing or empty, or [main] is
    missing, or [wind] is missing; a missing [dt] or [temp] does not
    matter. *)
Theorem fetch_pending_iff now provider cache c (response : Response) :
  getAsync now cache (cacheKey c) = None →
  provider c = Body (Some response) →
  outcome (fetchWeatherData now provider cache c) = Pending
  ↔ r_weather response = None ∨ r_weather response = Some []
    ∨ r_main response = None ∨ r_wind response = None.
Proof.
  intros Hmiss Hp. unfold fetchWeatherData, processedData. rewrite Hmiss, Hp.
  destruct (r_weather response) as [[|weather0 weather]|]; simpl;
    try (split; [auto|done]).
  destruct (r_main response) as [m|]; simpl; [|split; [auto|done]].
  destruct (r_wind response) as [wind|]; simpl; [|split; [auto 6|done]].
  split; [discriminate|]. intros [?|[?|[?|?]]]; discriminate.
Qed.

Lemma fetch_pending_iff_witness :
  outcome (fetchWeatherData 0 (λ _, Body (Some Inputs.no_temperature)) ∅ "Delhi")
  ≠ Pending.
Proof.
  intros Hp.
  assert (getAsync 0 (∅ : gmap string (json_text * Z)) (cacheKey "Delhi") = None)
    as Hmiss by (vm_compute; reflexivity).
  apply (fetch_pending_iff 0 (λ _, Body (Some Inputs.no_temperature)) ∅ "Delhi"
           Inputs.no_temperature Hmiss eq_refl) in Hp.
  destruct Hp as [?|[?|[?|?]]]; discriminate.
Defined.

(** X11. The entry written by a miss at [now] is no longer served 300
    seconds later: the next call for the city asks the provider again. *)
Theorem cache_entry_expires now later provider provider' cache c (o : Observation) :
  getAsync now cache (cacheKey c) = None →
  outcome (fetchWeatherData now provider cache c) = Resolved o →
  (now + 300 ≤ later)%Z →
  let first := fetchWeatherData now provider cache c in
  let second := fetchWeatherData later provider' (cache_after first) c in
  getAsync later (cache_after first) (cacheKey c) = None
  ∧ head (trace second) = Some (ProviderCall c).
Proof.
  intros Hmiss Hres Hlater first second.
  destruct (fetch_miss_resolved now provider cache c o Hmiss Hres)
    as (response & Hp & Hbuild & Hfirst).
  assert (getAsync later (cache_after first) (cacheKey c) = None) as Hgone.
  { subst first. rewrite Hfirst. cbn [cache_after]. unfold getAsync, setAsync.
    rewrite lookup_insert_eq. by apply Z.ltb_ge in Hlater as ->. }
  split; [exact Hgone|].
  subst second. unfold fetchWeatherData at 1. rewrite Hgone.
  destruct (provider' c) as [message|[response'|]]; simpl; try done.
  by destruct (processedData c response').
Qed.

Lemma cache_entry_expires_witness :
  let first := fetchWeatherData 1717223400
                 (λ _, Body (Some (Inputs.clear_sky 312.55))) ∅ "Delhi" in
  let second := fetchWeatherData 1717223700
                  (λ _, NetworkError "connect ETIMEDOUT")
                  (cache_after first) "Delhi" in
  getAsync 1717223700 (cache_after first) (cacheKey "Delhi") = None
  ∧ head (trace second) = Some (ProviderCall "Delhi").
Proof.
  eapply (cache_entry_expires 1717223400 1717223700
            (λ _, Body (Some (Inputs.clear_sky 312.55)))
            (λ _, NetworkError "connect ETIMEDOUT") ∅ "Delhi").
  - vm_compute. reflexivity.
  - vm_compute. reflexivity.
  - lia.
Defined.

Lemma cacheKey_inj c c' : cacheKey c = cacheKey c' → c = c'.
Proof. unfold cacheKey. cbn. intros H. by simplify_eq. Qed.

(** X12. A call for one city never changes what the cache holds for
    another city. *)
Theorem fetch_keeps_other_cities now later provider cache c c' :
  c ≠ c' →
  getAsync later (cache_after (fetchWeatherData now provider cache c)) (cacheKey c')
  = getAsync later cache (cacheKey c').
Proof.
  intros Hne. assert (cacheKey c ≠ cacheKey c') as Hk.
  { intros Heq. by apply cacheKey_inj in Heq. }
  unfold fetchWeatherData.
  destruct (getAsync now cache (cacheKey c)); simpl; [done|].
  destruct (provider c) as [message|[response|]]; simpl; try done.
  destruct (processedData c response); simpl; [|done].
  unfold getAsync, setAsync. by rewrite lookup_insert_ne.
Qed.

Lemma fetch_keeps_other_cities_witness :
  getAsync 5
    (cache_after (fetchWeatherData 0 (λ _, Body (Some (Inputs.clear_sky 300))) ∅ "Delhi"))
    (cacheKey "Mumbai")
  = getAsync 5 ∅ (cacheKey "Mumbai").
Proof. apply fetch_keeps_other_cities. discriminate. Defined.

(** X13. The provider is asked exactly when the cache holds no live entry
    for the city, and then once; whatever is written goes under the city's
    own key, for 300 seconds. *)
Theorem fetch_effects now provider cache c :
  let r := fetchWeatherData now provider cache c in
  provider_calls (trace r)
    = match getAsync now cache (cacheKey c) with Some _ => 0 | None => 1 end%nat
  ∧ Forall (λ e, match e with
                 | ProviderCall c' => c' = c
                 | CacheWrite key _ seconds => key = cacheKey c ∧ seconds = 300%Z
                 end) (trace r).
Proof.
  unfold fetchWeatherData.
  destruct (getAsync now cache (cacheKey c)); simpl; [by split|].
  destruct (provider c) as [message|[response|]]; simpl;
    try (split; [done|by repeat constructor]).
  destruct (processedData c response); simpl; split; try done; by repeat constructor.
Qed.

Lemma json_value_normal (v : jsnum) : exact_in_json (json_value v) = true.
Proof.
  destruct v as [| |f]; simpl; try done. unfold json_number.
  destruct (is_nan f || is_infinity f) eqn:E1; [done|].
  destruct (is_zero f && get_sign f) eqn:E2; [reflexivity|].
  simpl. by rewrite E1, E2.
Qed.

(** X14. What comes back from the cache is in normal form: it survives any
    further round trip through JSON, and writing it again gives the text
    that was read. *)
Theorem cached_observation_is_stable (o : Observation) :
  survives_json (JSON_parse (JSON_stringify o)) = true
  ∧ JSON_parse (JSON_stringify (JSON_parse (JSON_stringify o)))
    = JSON_parse (JSON_stringify o)
  ∧ JSON_stringify (JSON_parse (JSON_stringify o)) = JSON_stringify o.
Proof.
  assert (survives_json (JSON_parse (JSON_stringify o)) = true) as Hs.
  { unfold survives_json, JSON_parse, JSON_stringify. cbn [denotes temp feels_like
      humidity wind_speed dt]. by rewrite !json_value_normal. }
  pose proof (JSON_round_trip _ Hs) as Hrt.
  split; [exact Hs|]. split; [exact Hrt|].
  assert (∀ t, t = Text (JSON_parse t)) as Heta by (by intros []).
  rewrite (Heta (JSON_stringify (JSON_parse (JSON_stringify o)))), Hrt.
  symmetry. apply Heta.
Qed.
End FetchMore.

(** ** The latest document *)

Section LatestFacts.
Import Aggregator Api.

Lemma fold_latest_member (l : list WeatherData) (best : option WeatherData) :
  match fold_left
          (λ best d, match best with
                     | None => Some d
                     | Some b => if dt b <? dt d then Some d else Some b
                     end) l best with
  | None => best = None ∧ l = []
  | Some r => best = Some r ∨ r ∈ l
  end.
Proof.
  revert best. induction l as [|d l IH]; intros best; simpl.
  - destruct best; auto.
  - specialize (IH (match best with
                    | None => Some d
                    | Some b => if dt b <? dt d then Some d else Some b
                    end)).
    destruct (fold_left _ l _) as [r|].
    + destruct IH as [Hb|Hin]; [|right; by right].
      destruct best as [b|]; [destruct (dt b <? dt d)|]; simplify_eq;
        first [by left|right; by left].
    + destruct IH as [Hb _]. destruct best as [b|]; [destruct (dt b <? dt d)|];
        discriminate.
Qed.

Lemma fold_latest_greatest (l : list WeatherData) (best r : WeatherData) :
  Forall (λ d, is_nan (dt d) = false) l → is_nan (dt best) = false →
  fold_left
    (λ best d, match best with
               | None => Some d
               | Some b => if dt b <? dt d then Some d else Some b
               end) l (Some best) = Some r →
  (dt best <=? dt r) = true ∧ ∀ d, d ∈ l → (dt d <=? dt r) = true.
Proof.
  intros Hl. revert best. induction Hl as [|d l Hd Hl IH]; intros best Hb; simpl.
  - intros [= <-]. split; [by apply leb_refl|]. intros d Hd. by apply elem_of_nil in Hd.
  - destruct (dt best <? dt d) eqn:Hlt; intros Hr.
    + destruct (IH d Hd Hr) as [Hdr Hall]. split.
      * eapply leb_trans; [by apply ltb_leb|done].
      * intros d' [->|Hd']%elem_of_cons; [done|by apply Hall].
    + destruct (IH best Hb Hr) as [Hbr Hall]. split; [done|].
      intros d' [->|Hd']%elem_of_cons; [|by apply Hall].
      eapply leb_trans; [by apply leb_total|done].
Qed.

(** X15. For a monitored city and a store that answers, the handler of
    [GET /api/weather/:city] answers 200.  The body is [null] exactly when
    the store has no document of the city; otherwise it is a document of
    the store, of that city, and when no [dt] of the city is [NaN] no
    document of the city has a greater [dt]. *)
Theorem latest_is_newest_of_city (docs : list WeatherData) (c : string) :
  c ∈ cities →
  ∃ latestData,
    getLatest (Some docs) c = {| status := 200; json := Document latestData |}
    ∧ (latestData = None ↔ ∀ d, d ∈ docs → city d ≠ c)
    ∧ ∀ r, latestData = Some r →
        r ∈ docs ∧ city r = c
        ∧ (Forall (λ d, city d = c → is_nan (dt d) = false) docs →
           ∀ d, d ∈ docs → city d = c → (dt d <=? dt r) = true).
Proof.
  intros Hc. exists (findLatest docs c). unfold getLatest.
  destruct (decide (c ∈ cities)); [|done]. split; [done|].
  unfold findLatest.
  pose proof (fold_latest_member (filter (λ d, city d = c) docs) None) as Hm.
  destruct (fold_left _ (filter (λ d, city d = c) docs) None) as [r|] eqn:Hfold.
  - destruct Hm as [Hm|Hm]; [discriminate|].
    apply list_elem_of_filter in Hm as [Hrc Hr]. split.
    + split; [discriminate|]. intros Hnone. by destruct (Hnone r Hr).
    + intros r' [= <-]. split; [done|]. split; [done|].
      intros Hnan d Hd Hdc.
      destruct (filter (λ d, city d = c) docs) as [|d0 l] eqn:Hf; [discriminate|].
      assert (Forall (λ d, is_nan (dt d) = false) (d0 :: l)) as Hall.
      { rewrite <- Hf. apply Forall_forall. intros x [Hxc Hx]%list_elem_of_filter.
        rewrite Forall_forall in Hnan. by apply Hnan. }
      apply Forall_cons in Hall as [H0 Hall].
      simpl in Hfold. destruct (fold_latest_greatest l d0 r Hall H0 Hfold) as [H0r Hlr].
      assert (d ∈ d0 :: l) as Hin by (rewrite <- Hf; by apply list_elem_of_filter).
      apply elem_of_cons in Hin as [->|Hin]; [done|by apply Hlr].
  - destruct Hm as [_ Hm]. split; [|discriminate]. split; [|done].
    intros _ d Hd Hdc.
    assert (d ∈ filter (λ d, city d = c) docs) as Hin by (by apply list_elem_of_filter).
    rewrite Hm in Hin. by apply elem_of_nil in Hin.
Qed.

Lemma latest_is_newest_of_city_witness :
  ∃ latestData,
    getLatest (Some Inputs.heat_window) "Mumbai"
      = {| status := 200; json := Document latestData |}
    ∧ (latestData = None ↔ ∀ d, d ∈ Inputs.heat_window → city d ≠ "Mumbai"%string)
    ∧ ∀ r, latestData = Some r →
        r ∈ Inputs.heat_window ∧ city r = "Mumbai"%string
        ∧ (Forall (λ d, city d = "Mumbai"%string → is_nan (dt d) = false)
             Inputs.heat_window →
           ∀ d, d ∈ Inputs.heat_window → city d = "Mumbai"%string →
                (dt d <=? dt r) = true).
Proof.
  apply (latest_is_newest_of_city Inputs.heat_window "Mumbai").
  unfold cities. right. by left.
Defined.
End LatestFacts.

(** ** More on the sweep *)

Section SweepMore.
Import Fetch Scheduler Polling.

Lemma sweep_isolates_rejections_witness :
  ∃ st', sweep_over Inputs.delhi_unreachable cities initial = Continue st'
         ∧ handled st' = (handled initial + length cities)%nat.
Proof.
  apply sweep_isolates_rejections. intros c Hc. unfold cities in Hc.
  repeat (apply elem_of_cons in Hc as [->|Hc]; [vm_compute; reflexivity|]).
  by apply elem_of_nil in Hc.
Defined.

(** What one turn of the loop does to each part of the state. *)
Lemma process_shape (w : World) (st : State) (c : string) :
  let r := fetchWeatherData (now w) (provider w) (cache st) c in
  let st' := state_of (process w st c) in
  cache st' = cache_after r
  ∧ events st' = events st ++ trace r
  ∧ saved st `prefix_of` saved st'
  ∧ errors st `prefix_of` errors st'
  ∧ ((alertCounts st' = alertCounts st ∧ mails st' = mails st)
     ∨ ∃ temp, alertCounts st' = fst (Alert.checkAndSendAlert c temp (alertCounts st))
               ∧ mails st' = mails st ++ snd (Alert.checkAndSendAlert c temp (alertCounts st))).
Proof.
  unfold process. cbv zeta.
  destruct (outcome (fetchWeatherData (now w) (provider w) (cache st) c))
    as [data|error|]; simpl.
  - unfold saveWeatherData. destruct (save_ok w _); simpl.
    + destruct (Alert.checkAndSendAlert c (ToNumber (temp data)) (alertCounts st))
        as [counts sent] eqn:E. simpl.
      repeat split; try done; [by apply prefix_app_r|].
      right. exists (ToNumber (temp data)). by rewrite E.
    + repeat split; try done; [by apply prefix_app_r|]. by left.
  - repeat split; try done; [by apply prefix_app_r|]. by left.
  - repeat split; try done. by left.
Qed.

(** X17. When the store refuses the document, the reading is not shown to
    the alert machine: the error is logged, and the counters and the mails
    stay as they were. *)
Theorem failed_save_skips_alert (w : World) (st : State) (c : string) (o : Observation) :
  outcome (fetchWeatherData (now w) (provider w) (cache st) c) = Resolved o →
  save_ok w {| doc_data := o; doc_date := ToNumber (dt o) * 1000 |} = false →
  ∃ st' error, process w st c = Continue st'
    ∧ errors st' = errors st ++ [(c, error)]
    ∧ saved st' = saved st
    ∧ alertCounts st' = alertCounts st
    ∧ mails st' = mails st.
Proof.
  intros Hres Hsave. unfold process. cbv zeta. rewrite Hres.
  unfold saveWeatherData. rewrite Hsave. by eexists _, _.
Qed.

Lemma failed_save_skips_alert_witness :
  ∃ st' error, process Cases.store_down initial "Delhi" = Continue st'
    ∧ errors st' = errors initial ++ [("Delhi"%string, error)]
    ∧ saved st' = saved initial
    ∧ alertCounts st' = alertCounts initial
    ∧ mails st' = mails initial.
Proof.
  eapply (failed_save_skips_alert Cases.store_down initial "Delhi").
  - vm_compute. reflexivity.
  - reflexivity.
Defined.

Lemma checkAndSendAlert_sane (c : string) (temp : float) (counts : gmap string nat) :
  c ∈ cities →
  map_Forall (λ k n, k ∈ cities ∧ n ≤ 1)%nat counts →
  map_Forall (λ k n, k ∈ cities ∧ n ≤ 1)%nat (fst (Alert.checkAndSendAlert c temp counts))
  ∧ Forall (λ m, Alert.email_city m ∈ cities ∧ hot (Alert.email_temp m))
      (snd (Alert.checkAndSendAlert c temp counts)).
Proof.
  intros Hc Hb. unfold Alert.checkAndSendAlert.
  assert (Alert.count_of counts c ≤ 1)%nat as Hn.
  { rewrite count_of_lookup. destruct (counts !! c) as [n|] eqn:E; simpl; [|lia].
    by destruct (Hb _ _ E). }
  destruct (alertThreshold <? temp) eqn:Hhot; simpl.
  - rewrite lookup_insert_eq. destruct (decide _) as [Hge|Hlt]; simpl.
    + split; [|apply Forall_cons; split; [by split|constructor]].
      rewrite insert_insert_eq. apply map_Forall_insert_2; [split; [done|lia]|done].
    + split; [|constructor]. apply map_Forall_insert_2; [|done].
      split; [done|]. unfold alertConsecutiveCount in Hlt. lia.
  - split; [|constructor]. apply map_Forall_insert_2; [split; [done|lia]|done].
Qed.

Lemma sweep_over_sane (w : World) (cs : list string) (st : State) :
  (∀ c, c ∈ cs → c ∈ cities) →
  map_Forall (λ k n, k ∈ cities ∧ n ≤ 1)%nat (alertCounts st) →
  Forall (λ m, Alert.email_city m ∈ cities ∧ hot (Alert.email_temp m)) (mails st) →
  let st' := state_of (sweep_over w cs st) in
  map_Forall (λ k n, k ∈ cities ∧ n ≤ 1)%nat (alertCounts st')
  ∧ Forall (λ m, Alert.email_city m ∈ cities ∧ hot (Alert.email_temp m)) (mails st').
Proof.
  revert st. induction cs as [|c cs IH]; intros st Hcs Hcounts Hmails; simpl; [done|].
  assert (c ∈ cities) as Hc by (apply Hcs; by left).
  destruct (process_shape w st c) as (_ & _ & _ & _ & Halert).
  assert (map_Forall (λ k n, k ∈ cities ∧ n ≤ 1)%nat
            (alertCounts (state_of (process w st c)))
          ∧ Forall (λ m, Alert.email_city m ∈ cities ∧ hot (Alert.email_temp m))
              (mails (state_of (process w st c)))) as [Hc1 Hm1].
  { destruct Halert as [[-> ->]|(temp & -> & ->)]; [done|].
    destruct (checkAndSendAlert_sane c temp (alertCounts st) Hc Hcounts) as [? ?].
    split; [done|]. by apply Forall_app. }
  destruct (process w st c) as [st1|st1]; simpl in *; [|done].
  apply IH; [|done|done]. intros c' Hc'. apply Hcs. by right.
Qed.

(** X18. Whatever the provider and the store do, through any number of
    sweeps from the start of the program: the counters exist for monitored
    cities only and are 0 or 1, and every mail sent is for a monitored
    city and carries a reading above the threshold. *)
Theorem scheduler_alerts_stay_sane (ws : list World) :
  let st := ticks ws initial in
  map_Forall (λ k n, k ∈ cities ∧ (n = 0 ∨ n = 1))%nat (alertCounts st)
  ∧ Forall (λ m, Alert.email_city m ∈ cities ∧ hot (Alert.email_temp m)) (mails st).
Proof.
  cbv zeta.
  assert (∀ st,
    map_Forall (λ k n, k ∈ cities ∧ n ≤ 1)%nat (alertCounts st) →
    Forall (λ m, Alert.email_city m ∈ cities ∧ hot (Alert.email_temp m)) (mails st) →
    map_Forall (λ k n, k ∈ cities ∧ n ≤ 1)%nat (alertCounts (ticks ws st))
    ∧ Forall (λ m, Alert.email_city m ∈ cities ∧ hot (Alert.email_temp m))
        (mails (ticks ws st))) as Hgen.
  { unfold ticks. induction ws as [|w ws IH]; intros st Hc Hm; simpl; [done|].
    destruct (sweep_over_sane w cities st (λ _ H, H) Hc Hm) as [Hc1 Hm1].
    by apply IH. }
  destruct (Hgen initial) as [Hc Hm]; [apply map_Forall_empty|constructor|].
  split; [|done]. intros k n Hk. destruct (Hc k n Hk) as [? ?]. split; [done|lia].
Qed.

Lemma sweep_over_append_only (w : World) (cs : list string) (st : State) :
  let st' := state_of (sweep_over w cs st) in
  saved st `prefix_of` saved st' ∧ errors st `prefix_of` errors st'
  ∧ mails st `prefix_of` mails st' ∧ events st `prefix_of` events st'.
Proof.
  revert st. induction cs as [|c cs IH]; intros st; simpl; [done|].
  destruct (process_shape w st c) as (_ & Hev & Hsaved & Herr & Halert).
  assert (mails st `prefix_of` mails (state_of (process w st c))) as Hmails.
  { destruct Halert as [[_ ->]|(temp & _ & ->)]; [done|by apply prefix_app_r]. }
  assert (events st `prefix_of` events (state_of (process w st c))) as Hevents.
  { rewrite Hev. by apply prefix_app_r. }
  destruct (process w st c) as [st1|st1]; simpl in *; [|done].
  destruct (IH st1) as (H1 & H2 & H3 & H4).
  repeat split; by etrans.
Qed.

(** X19. The program only ever adds: through any number of sweeps, the
    documents saved, the errors logged, the mails sent and the calls made
    so far stay, in their order, at the front of what is there later. *)
Theorem scheduler_append_only (ws : list World) (st : State) :
  saved st `prefix_of` saved (ticks ws st)
  ∧ errors st `prefix_of` errors (ticks ws st)
  ∧ mails st `prefix_of` mails (ticks ws st)
  ∧ events st `prefix_of` events (ticks ws st).
Proof.
  unfold ticks. revert st. induction ws as [|w ws IH]; intros st; simpl; [done|].
  destruct (sweep_over_append_only w cities st) as (H1 & H2 & H3 & H4).
  destruct (IH (state_of (sweep w st))) as (G1 & G2 & G3 & G4).
  repeat split; by etrans.
Qed.
End SweepMore.

(** ** The cache between the provider and the alert machine *)

Section CacheAndAlert.
Import Fetch Scheduler Polling.

Lemma hot_not_zero (t : float) : hot t → is_nan t = false ∧ is_zero t = false.
Proof.
  unfold hot. intros (a & b & Ha & Hb & Hlt)%ltb_rank. split.
  - apply not_nan_rank. by exists b.
  - destruct (is_zero t) eqn:Hz; [|done]. unfold is_zero in Hz.
    apply eqb_rank in Hz as (z & Hz & Hzero).
    rewrite Hb in Hz. injection Hz as ->.
    vm_compute in Ha, Hzero. injection Ha as <-. injection Hzero as <-.
    unfold FloatOrder.lexlt in Hlt. simpl in Hlt. lia.
Qed.

Lemma hot_exact_in_json (t : float) :
  hot t → is_infinity t = false → exact_in_json (JNumber t) = true.
Proof.
  intros [Hnan Hzero]%hot_not_zero Hinf. simpl. by rewrite Hnan, Hinf, Hzero.
Qed.

(** X20. A hot reading taken from the provider counts once more when the
    next sweep, less than 300 seconds later, is served from the cache: two
    sweeps and a single call to the provider send the alert. *)
Theorem cached_reading_counts_again
    (w1 w2 : World) (st : State) (c : string) (response : Response)
    (o : Observation) (t : float) :
  getAsync (now w1) (cache st) (cacheKey c) = None →
  provider w1 c = Body (Some response) →
  processedData c response = Some o →
  temp o = JNumber t → hot t → is_infinity t = false →
  (∀ d, save_ok w1 d = true) → (∀ d, save_ok w2 d = true) →
  Alert.count_of (alertCounts st) c = 0%nat →
  (now w1 ≤ now w2 < now w1 + 300)%Z →
  ∃ st1 st2, process w1 st c = Continue st1 ∧ process w2 st1 c = Continue st2
    ∧ Alert.count_of (alertCounts st1) c = 1%nat
    ∧ mails st1 = mails st
    ∧ mails st2 = mails st ++ [Alert.Email c t]
    ∧ events st2 = events st
        ++ [ProviderCall c; CacheWrite (cacheKey c) (JSON_stringify o) 300].
Proof.
  intros Hmiss Hp Hbuild Ht Hhot Hinf Hs1 Hs2 H0 Hlater.
  assert (fetchWeatherData (now w1) (provider w1) (cache st) c =
            {| outcome := Resolved o;
               cache_after := setAsync (now w1) (cache st) (cacheKey c)
                                (JSON_stringify o) 300;
               trace := [ProviderCall c;
                         CacheWrite (cacheKey c) (JSON_stringify o) 300] |}) as Hfirst.
  { unfold fetchWeatherData. by rewrite Hmiss, Hp, Hbuild. }
  assert (Alert.checkAndSendAlert c t (alertCounts st)
          = (<[c := 1%nat]> (alertCounts st), [])) as Halert1.
  { unfold Alert.checkAndSendAlert. unfold hot in Hhot. rewrite Hhot.
    rewrite lookup_insert_eq, H0. done. }
  assert (Alert.checkAndSendAlert c t (<[c := 1%nat]> (alertCounts st))
          = (<[c := 0%nat]> (alertCounts st), [Alert.Email c t])) as Halert2.
  { unfold Alert.checkAndSendAlert. unfold hot in Hhot. rewrite Hhot.
    rewrite lookup_insert_eq, count_of_insert. simpl.
    by rewrite !insert_insert_eq. }
  assert (temp (JSON_parse (JSON_stringify o)) = JNumber t) as Hback.
  { unfold JSON_parse, JSON_stringify. cbn [denotes temp]. rewrite Ht.
    apply json_value_exact. by apply hot_exact_in_json. }
  eexists _, _. split.
  { unfold process. cbv zeta. rewrite Hfirst.
    cbn [outcome cache_after trace cache saved alertCounts mails events errors].
    unfold saveWeatherData. rewrite Hs1, Ht. cbn [ToNumber]. rewrite Halert1.
    reflexivity. }
  split.
  { unfold process. cbv zeta. cbn [cache alertCounts saved mails events errors].
    rewrite (fetch_hit (now w2) (provider w2) _ c (JSON_stringify o)).
    2:{ apply getAsync_setAsync. lia. }
    cbn [outcome cache_after trace cache saved alertCounts mails events errors].
    unfold saveWeatherData. rewrite Hs2, Hback.
    cbn [ToNumber]. rewrite Halert2. reflexivity. }
  cbn [alertCounts mails events]. rewrite count_of_insert, !app_nil_r.
  repeat split; try done.
Qed.

Lemma cached_reading_counts_again_witness :
  ∃ st1 st2,
    process (Cases.heat 1717223400) initial "Delhi" = Continue st1
    ∧ process (Cases.heat 1717223699) st1 "Delhi" = Continue st2
    ∧ mails st1 = []
    ∧ mails st2 = [Alert.Email "Delhi" (312.55 - 273.15)]
    ∧ provider_calls (events st2) = 1%nat.
Proof.
  edestruct (cached_reading_counts_again (Cases.heat 1717223400)
               (Cases.heat 1717223699) initial "Delhi" (Inputs.clear_sky 312.55))
    as (st1 & st2 & H1 & H2 & _ & Hm1 & Hm2 & Hev).
  - vm_compute. reflexivity.
  - reflexivity.
  - reflexivity.
  - reflexivity.
  - vm_compute. reflexivity.
  - vm_compute. reflexivity.
  - done.
  - done.
  - vm_compute. reflexivity.
  - simpl. lia.
  - exists st1, st2. rewrite Hev. repeat split; done.
Defined.

Lemma provider_calls_app (a b : list event) :
  provider_calls (a ++ b) = (provider_calls a + provider_calls b)%nat.
Proof. unfold provider_calls. by rewrite List.filter_app, length_app. Qed.

Lemma fetch_trace_shape (now : Z) (provider : string → ProviderReply)
    (cache : gmap string (json_text * Z)) (c : string) :
  let t := trace (fetchWeatherData now provider cache c) in
  (provider_calls t ≤ 1)%nat
  ∧ Forall (λ e, match e with
                 | ProviderCall c' => c' = c
                 | CacheWrite key _ seconds => key = cacheKey c ∧ seconds = 300%Z
                 end) t.
Proof.
  unfold fetchWeatherData.
  destruct (getAsync now cache (cacheKey c)); simpl;
    [split; [unfold provider_calls; simpl; lia|constructor]|].
  destruct (provider c) as [message|[response|]]; simpl;
    try (split; [unfold provider_calls; simpl; lia|by repeat constructor]).
  destruct (processedData c response); simpl;
    (split; [unfold provider_calls; simpl; lia|by repeat constructor]).
Qed.

Lemma sweep_over_calls (w : World) (cs : list string) (st : State) :
  ∃ new, events (state_of (sweep_over w cs st)) = events st ++ new
    ∧ (provider_calls new ≤ length cs)%nat
    ∧ Forall (λ e, match e with
                   | ProviderCall c => c ∈ cs
                   | CacheWrite key _ seconds =>
                       (∃ c, c ∈ cs ∧ key = cacheKey c) ∧ seconds = 300%Z
                   end) new.
Proof.
  revert st. induction cs as [|c cs IH]; intros st; simpl.
  - exists []. rewrite app_nil_r. split; [done|]. split; [done|constructor].
  - destruct (process_shape w st c) as (_ & Hev & _).
    destruct (fetch_trace_shape (now w) (provider w) (cache st) c) as [Hn Hall].
    set (t := trace (fetchWeatherData (now w) (provider w) (cache st) c)) in *.
    assert (Forall (λ e, match e with
                         | ProviderCall c' => c' ∈ c :: cs
                         | CacheWrite key _ seconds =>
                             (∃ c', c' ∈ c :: cs ∧ key = cacheKey c') ∧ seconds = 300%Z
                         end) t) as Ht.
    { eapply Forall_impl; [exact Hall|]. intros [c'|key text seconds]; simpl.
      - intros ->. by left.
      - intros [-> ->]. split; [|done]. exists c. split; [by left|done]. }
    destruct (process w st c) as [st1|st1]; simpl in *.
    + destruct (IH st1) as (new & Hnew & Hcalls & Hok).
      exists (t ++ new). rewrite Hnew, Hev, <- app_assoc. split; [done|].
      rewrite provider_calls_app. split; [lia|].
      apply Forall_app. split; [done|].
      eapply Forall_impl; [exact Hok|]. intros [c'|key text seconds]; simpl.
      * intros ?. by right.
      * intros [(c' & ? & ?) ?]. split; [|done]. exists c'. split; [by right|done].
    + exists t. split; [done|]. split; [lia|done].
Qed.

(** X21. One sweep asks the provider at most six times, for monitored
    cities only, and writes the cache only under the key of a monitored
    city, for 300 seconds. *)
Theorem sweep_calls_bounded (w : World) (st : State) :
  ∃ new, events (state_of (sweep w st)) = events st ++ new
    ∧ (provider_calls new ≤ 6)%nat
    ∧ Forall (λ e, match e with
                   | ProviderCall c => c ∈ cities
                   | CacheWrite key _ seconds =>
                       (∃ c, c ∈ cities ∧ key = cacheKey c) ∧ seconds = 300%Z
                   end) new.
Proof. exact (sweep_over_calls w cities st). Qed.
End CacheAndAlert.

(** ** The forecast route *)

Section ForecastFacts.
Import Forecast.
Context {J : Type} (JSON_parse : string → option J) (JSON_stringify : J → string).
Implicit Types (now later : Z) (provider : string → ProviderReply)
  (cache : gmap string (string * Z)) (c : string).

(** X22. The forecast route writes the cache only when it answers 200
    after asking the provider: a request for a city that is not monitored
    is answered 400 without touching cache or provider, and any request
    that is not answered 200 leaves the cache as it was. *)
Theorem forecast_failures_cache_nothing now provider cache c :
  let r := getForecast JSON_parse JSON_stringify now provider cache c in
  (c ∉ cities →
     response r = Answer 400 (ErrorBody "Invalid city") ∧ trace r = [])
  ∧ ((∀ forecast, response r ≠ Answer 200 (Payload forecast)) →
     cache_after r = cache
     ∧ Forall (λ e, match e with ProviderCall _ => True | _ => False end) (trace r)).
Proof.
  unfold getForecast. destruct (decide (c ∈ cities)) as [Hin|Hout]; simpl.
  - split; [done|].
    destruct (truthy (getAsync now cache (cacheKey c))) as [text|]; simpl.
    + destruct (JSON_parse text); simpl; by split.
    + destruct (provider c) as [message|data]; simpl;
        [intros _; split; [done|by repeat constructor]|].
      destruct (JSON_parse data) as [forecast|]; simpl.
      * intros Hno. by destruct (Hno forecast).
      * intros _. split; [done|by repeat constructor].
  - split; [done|]. by split.
Qed.

Lemma forecast_getAsync_setAsync now later cache key text :
  getAsync later (setAsync now cache key text 1800) key
  = if (later <? now + 1800)%Z then Some text else None.
Proof. unfold getAsync, setAsync. by rewrite lookup_insert_eq. Qed.

(** X23. A forecast fetched on a miss is written under ["forecast:"] and
    the city for 1800 seconds.  Until then a request for the city is
    answered from the cache with the text parsed back, the provider not
    being asked; from then on the provider is asked again. *)
Theorem forecast_round_trip now later provider provider' cache c
    (data : string) (forecast : J) :
  c ∈ cities →
  truthy (getAsync now cache (cacheKey c)) = None →
  provider c = Body data →
  JSON_parse data = Some forecast →
  JSON_stringify forecast ≠ ""%string →
  let first := getForecast JSON_parse JSON_stringify now provider cache c in
  let second :=
    getForecast JSON_parse JSON_stringify later provider' (cache_after first) c in
  response first = Answer 200 (Payload forecast)
  ∧ trace first
    = [ProviderCall c; CacheWrite ("forecast:" ++ c) (JSON_stringify forecast) 1800]
  ∧ ((later < now + 1800)%Z →
     trace second = []
     ∧ response second =
         match JSON_parse (JSON_stringify forecast) with
         | Some cached => Answer 200 (Payload cached)
         | None => Answer 500 (ErrorBody "Failed to fetch forecast data")
         end)
  ∧ ((now + 1800 ≤ later)%Z → head (trace second) = Some (ProviderCall c)).
Proof.
  intros Hin Hmiss Hp Hparse Hne first second.
  assert (first = {| response := Answer 200 (Payload forecast);
                     cache_after := setAsync now cache (cacheKey c)
                                      (JSON_stringify forecast) 1800;
                     trace := [ProviderCall c;
                               CacheWrite (cacheKey c) (JSON_stringify forecast) 1800] |})
    as Hfirst.
  { subst first. unfold getForecast. destruct (decide (c ∈ cities)); [|done].
    by rewrite Hmiss, Hp, Hparse. }
  split; [by rewrite Hfirst|]. split; [by rewrite Hfirst|].
  subst second. rewrite Hfirst. cbn [cache_after]. unfold getForecast.
  destruct (decide (c ∈ cities)); [|done].
  rewrite forecast_getAsync_setAsync. split.
  - intros Hlt. apply Z.ltb_lt in Hlt as ->. simpl.
    destruct (decide (JSON_stringify forecast = ""%string)); [done|].
    by destruct (JSON_parse (JSON_stringify forecast)).
  - intros Hge. apply Z.ltb_ge in Hge as ->. simpl.
    destruct (provider' c) as [message|data']; simpl; [done|].
    by destruct (JSON_parse data').
Qed.

(** X24. A text that is not JSON is treated in two ways: coming from
    the provider on a miss, it leaves the request without any answer;
    coming from the cache, it is answered 500.  A connection error is
    answered 500 as well. *)
Theorem forecast_unparsable now provider cache c :
  c ∈ cities →
  let r := getForecast JSON_parse JSON_stringify now provider cache c in
  (∀ data, truthy (getAsync now cache (cacheKey c)) = None →
     provider c = Body data → JSON_parse data = None →
     response r = NoAnswer)
  ∧ (∀ text, truthy (getAsync now cache (cacheKey c)) = Some text →
       JSON_parse text = None →
       response r = Answer 500 (ErrorBody "Failed to fetch forecast data")
       ∧ trace r = [])
  ∧ (∀ message, truthy (getAsync now cache (cacheKey c)) = None →
       provider c = NetworkError message →
       response r = Answer 500 (ErrorBody "Failed to fetch forecast data")).
Proof.
  intros Hin. unfold getForecast. destruct (decide (c ∈ cities)); [|done].
  split; [|split].
  - intros data -> -> ->. done.
  - intros text -> ->. done.
  - intros message -> ->. done.
Qed.
End ForecastFacts.

Lemma forecast_round_trip_witness :
  let first := Forecast.getForecast Cases.parse_text (λ j, j) 1717223400
                 Cases.forecast_provider ∅ "Delhi" in
  let second := Forecast.getForecast Cases.parse_text (λ j, j) 1717225199
                  Cases.forecast_provider (Forecast.cache_after first) "Delhi" in
  Forecast.response first = Forecast.Answer 200 (Forecast.Payload "{}"%string)
  ∧ Forecast.trace second = []
  ∧ Forecast.response second = Forecast.Answer 200 (Forecast.Payload "{}"%string).
Proof.
  assert ("Delhi"%string ∈ cities) as Hin by (by left).
  assert (Forecast.truthy
            (Forecast.getAsync 1717223400 (∅ : gmap string (string * Z))
               (Forecast.cacheKey "Delhi")) = None) as Hmiss by reflexivity.
  destruct (forecast_round_trip Cases.parse_text (λ j, j) 1717223400 1717225199
              Cases.forecast_provider Cases.forecast_provider ∅ "Delhi"
              "{}"%string "{}"%string Hin Hmiss eq_refl eq_refl ltac:(discriminate))
    as (H1 & _ & H2 & _).
  destruct (H2 ltac:(lia)) as [H3 H4].
  split; [exact H1|]. split; [exact H3|]. exact H4.
Defined.

Lemma forecast_unparsable_witness :
  Forecast.response
    (Forecast.getForecast Cases.parse_text (λ j, j) 1717223400
       (λ _, Forecast.Body "<html>") ∅ "Delhi")
  = Forecast.NoAnswer.
Proof.
  assert ("Delhi"%string ∈ cities) as Hin by (by left).
  assert (Forecast.truthy
            (Forecast.getAsync 1717223400 (∅ : gmap string (string * Z))
               (Forecast.cacheKey "Delhi")) = None) as Hmiss by reflexivity.
  exact (proj1 (forecast_unparsable Cases.parse_text (λ j, j) 1717223400
                  (λ _, Forecast.Body "<html>") ∅ "Delhi" Hin)
           "<html>"%string Hmiss eq_refl eq_refl).
Defined.
